(** * HistoryItem: the message entity of the history subsystem

    A shallow embedding of [Telegram/SourceFiles/history/history_item.cpp]:
    the media classifier [CheckMessageMedia], the flag word of a message,
    the reconciliation methods [setRealId] and [sendFailed], the read-state
    derivation [unread], the deletion predicates [canDelete] and
    [canDeleteForEveryone], [markMediaRead] and [notificationText].

    Integers are [Z]; the 32-bit flag word is a [Z] in [0, 2^32) handled with
    [Z.land], [Z.lor] and a 32-bit complement.  Methods that mutate the item
    or call into the owning conversation run in a small state-and-error
    monad whose state is the item together with the log of calls made to
    external collaborators; [Expects] is the fail-fast contract check. *)

From Stdlib Require Import ZArith List Bool Lia.
From Stdlib Require String Ascii DecimalString DecimalZ.
Import ListNotations.
Local Open Scope Z_scope.

(** ** Scalars *)

(** [MsgId] and [TimeId] are 32-bit signed integers in the source. *)
Definition MsgId := Z.
Definition TimeId := Z.
Definition MessageGroupId := Z.

Definition int32_min : Z := - 2 ^ 31.
Definition int32_max : Z := 2 ^ 31 - 1.

(** Two's complement wrap-around of a 32-bit signed result. *)
Definition wrap32 (z : Z) : Z := (z + 2 ^ 31) mod 2 ^ 32 - 2 ^ 31.

(** [a - b] on [int32] operands. *)
Definition sub32 (a b : Z) : Z := wrap32 (a - b).

(** A [QString] is a sequence of 16-bit code units; [size] counts them. *)
Definition QChar := Z.
Definition QString := list QChar.

Definition size (s : QString) : Z := Z.of_nat (length s).

(** [QString::mid(position, n)] for [0 <= position] and [0 <= n]. *)
Definition mid (s : QString) (position n : Z) : QString :=
  firstn (Z.to_nat n) (skipn (Z.to_nat position) s).

(** [qsl("...")]: three full stops. *)
Definition qsl_dots : QString := [46; 46; 46].

Definition kNotificationTextLimit : Z := 255.

(** ** Media classification *)

Inductive MediaCheckResult :=
| Good
| Unsupported
| Empty
| HasTimeToLive.

(** The wire variants the classifier matches on.  Only the variant tag and
    the optional sub-fields the classifier inspects are kept. *)
Inductive MTPGeoPoint := MTPDgeoPoint | MTPDgeoPointEmpty.
Inductive MTPPhoto := MTPDphoto | MTPDphotoEmpty.
Inductive MTPDocument := MTPDdocument | MTPDdocumentEmpty.
Inductive MTPWebPage :=
| MTPDwebPage
| MTPDwebPageEmpty
| MTPDwebPagePending
| MTPDwebPageNotModified.
Inductive MTPGame := MTPDgame.

Inductive MTPMessageMedia :=
| MTPDmessageMediaEmpty
| MTPDmessageMediaContact
| MTPDmessageMediaGeo (vgeo : MTPGeoPoint)
| MTPDmessageMediaVenue (vgeo : MTPGeoPoint)
| MTPDmessageMediaGeoLive (vgeo : MTPGeoPoint)
| MTPDmessageMediaPhoto (vphoto : option MTPPhoto) (vttl_seconds : option Z)
| MTPDmessageMediaDocument (vdocument : option MTPDocument)
                           (vttl_seconds : option Z)
| MTPDmessageMediaWebPage (vwebpage : MTPWebPage)
| MTPDmessageMediaGame (vgame : MTPGame)
| MTPDmessageMediaInvoice
| MTPDmessageMediaPoll
| MTPDmessageMediaUnsupported.

Definition check_geo (g : MTPGeoPoint) : MediaCheckResult :=
  match g with
  | MTPDgeoPoint => Good
  | MTPDgeoPointEmpty => Empty
  end.

Definition CheckMessageMedia (media : MTPMessageMedia) : MediaCheckResult :=
  match media with
  | MTPDmessageMediaEmpty => Good
  | MTPDmessageMediaContact => Good
  | MTPDmessageMediaGeo g => check_geo g
  | MTPDmessageMediaVenue g => check_geo g
  | MTPDmessageMediaGeoLive g => check_geo g
  | MTPDmessageMediaPhoto photo ttl =>
      match ttl with
      | Some _ => HasTimeToLive
      | None =>
          match photo with
          | None => Empty
          | Some MTPDphoto => Good
          | Some MTPDphotoEmpty => Empty
          end
      end
  | MTPDmessageMediaDocument document ttl =>
      match ttl with
      | Some _ => HasTimeToLive
      | None =>
          match document with
          | None => Empty
          | Some MTPDdocument => Good
          | Some MTPDdocumentEmpty => Empty
          end
      end
  | MTPDmessageMediaWebPage w =>
      match w with
      | MTPDwebPage => Good
      | MTPDwebPageEmpty => Good
      | MTPDwebPagePending => Good
      | MTPDwebPageNotModified => Unsupported
      end
  | MTPDmessageMediaGame MTPDgame => Good
  | MTPDmessageMediaInvoice => Good
  | MTPDmessageMediaPoll => Good
  | MTPDmessageMediaUnsupported => Unsupported
  end.

(** ** The flag word *)

(** The flags the item logic names: the first seven belong to the wire
    scheme ([MTPDmessage::Flag]), the last four are client-side
    ([MTPDmessage_ClientFlag]). *)
Inductive MessageFlag :=
| f_out
| f_mentioned
| f_media_unread
| f_reply_markup
| f_post
| f_post_author
| f_legacy
| f_is_group_migrate
| f_clientside_unread
| f_sending
| f_failed.

Definition all_flags : list MessageFlag :=
  [f_out; f_mentioned; f_media_unread; f_reply_markup; f_post; f_post_author;
   f_legacy; f_is_group_migrate; f_clientside_unread; f_sending; f_failed].

Definition Flags := Z.

(** 32-bit complement, the [~] of an unsigned 32-bit word. *)
Definition lnot32 (x : Z) : Z := Z.lxor x (Z.ones 32).

Fixpoint distinctb (l : list Z) : bool :=
  match l with
  | [] => true
  | x :: r => negb (existsb (Z.eqb x) r) && distinctb r
  end.

(** The bit positions are generated from the wire scheme, which is not part
    of the translated sources: they are taken as a parameter [bit_of].  A
    layout is well formed when every flag sits on its own bit of the word. *)
Definition layout_ok (bit_of : MessageFlag -> Z) : bool :=
  forallb (fun f => (0 <=? bit_of f) && (bit_of f <? 32)) all_flags
  && distinctb (map bit_of all_flags).

(** ** Peers, conversations and messages *)

Record UserData := {
  isBot : bool;
  isSupport : bool
}.

(** [adminRights_delete_messages] is the value of
    [adminRights() & ChatAdminRight::f_delete_messages]. *)
Record ChatData := {
  amCreator : bool;
  adminRights_delete_messages : bool
}.

Record ChannelData := {
  channel_isMegagroup : bool;
  canDeleteMessages : bool;
  canPublish : bool;
  canWrite : bool;
  canEditMessages : bool
}.

(** A peer is exactly one of a user, a basic group chat or a channel; the
    downcasts [asUser], [asChat] and [asChannel] read the kind. *)
Inductive PeerKind :=
| UserPeer (u : UserData)
| ChatPeer (c : ChatData)
| ChannelPeer (ch : ChannelData).

(** [migrateTo] is true when [migrateTo()] returns a successor channel. *)
Record PeerData := {
  kind : PeerKind;
  isSelf : bool;
  migrateTo : bool;
  canPinMessages : bool;
  pinnedMessageId : MsgId
}.

Definition asUser (p : PeerData) : option UserData :=
  match kind p with UserPeer u => Some u | _ => None end.

Definition asChat (p : PeerData) : option ChatData :=
  match kind p with ChatPeer c => Some c | _ => None end.

Definition asChannel (p : PeerData) : option ChannelData :=
  match kind p with ChannelPeer ch => Some ch | _ => None end.

Definition isUser (p : PeerData) : bool :=
  match kind p with UserPeer _ => true | _ => false end.

Definition isChannel (p : PeerData) : bool :=
  match kind p with ChannelPeer _ => true | _ => false end.

(** The owning conversation, as far as the item reads it. *)
Record History := {
  peer : PeerData;
  notifyAboutPinned : bool
}.

(** Global configuration read by the permission predicates. *)
Record GlobalConfig := {
  RevokePrivateTimeLimit : Z;
  RevokeTimeLimit : Z;
  RevokePrivateInbox : bool;
  ChannelsReadMediaPeriod : Z
}.

(** What the item asks of its media payload. *)
Record Media := {
  media_notificationText : QString;
  media_chatListText : QString;
  allowsRevoke : bool
}.

(** The reply-markup component: whether its flags carry [f_inline] and
    whether an inline keyboard object exists. *)
Record HistoryMessageReplyMarkup := {
  markup_inline : bool;
  inlineKeyboard : bool
}.

Record HistoryMessageForwarded := {
  originalDate : TimeId;
  originalId : MsgId;
  originalAuthor : QString
}.

(** The sparse component set: each kind present or absent. *)
Record Components := {
  Reply : option MsgId;
  Forwarded : option HistoryMessageForwarded;
  Via : bool;
  Signed : option QString;
  ReplyMarkup : option HistoryMessageReplyMarkup;
  LogEntryOriginal : bool;
  ServicePinned : bool
}.

(** The rich text of the body: [toString] is its plain rendering. *)
Record TextString := {
  text_isEmpty : bool;
  toString : QString
}.

(** The message.  [isLogEntry], [serviceMsg], [toHistoryMessage] and
    [isGroupMigrate] are the results of the methods of those names, which
    the subclasses and the header define. *)
Record HistoryItem := {
  id : MsgId;
  _history : History;
  _flags : Flags;
  _date : TimeId;
  _groupId : MessageGroupId;
  components : Components;
  _media : option Media;
  _text : TextString;
  isLogEntry : bool;
  serviceMsg : bool;
  toHistoryMessage : bool;
  isGroupMigrate : bool
}.

Definition set_id (m : HistoryItem) (newId : MsgId) : HistoryItem :=
  {| id := newId; _history := _history m; _flags := _flags m;
     _date := _date m; _groupId := _groupId m; components := components m;
     _media := _media m; _text := _text m; isLogEntry := isLogEntry m;
     serviceMsg := serviceMsg m; toHistoryMessage := toHistoryMessage m;
     isGroupMigrate := isGroupMigrate m |}.

Definition set_flags (m : HistoryItem) (fl : Flags) : HistoryItem :=
  {| id := id m; _history := _history m; _flags := fl;
     _date := _date m; _groupId := _groupId m; components := components m;
     _media := _media m; _text := _text m; isLogEntry := isLogEntry m;
     serviceMsg := serviceMsg m; toHistoryMessage := toHistoryMessage m;
     isGroupMigrate := isGroupMigrate m |}.

(** ** Calls to external collaborators *)

Inductive PeerUpdateFlag := ChannelLocalMessages.

(** One constructor per call the translated methods make on the owning
    conversation, its data session or the notification layer; the receiver
    item is the item the method runs on. *)
Inductive Call :=
| unregisterLocalMessage
| notifyItemIdChange (oldId : MsgId)
| updateMessageId
| requestItemRepaint
| peerUpdatedDelayed (flag : PeerUpdateFlag)
| updateChatListEntry
| eraseFromUnreadMentions (msgId : MsgId).

(** ** The method monad *)

Inductive Result (A : Type) :=
| Done (a : A)
| ContractViolation.

Arguments Done {A} a.
Arguments ContractViolation {A}.

Record World := {
  this : HistoryItem;
  calls : list Call
}.

Definition M (A : Type) : Type := World -> Result (A * World).

Definition ret {A} (a : A) : M A := fun w => Done (a, w).

Definition bind {A B} (c : M A) (k : A -> M B) : M B :=
  fun w =>
    match c w with
    | Done (a, w') => k a w'
    | ContractViolation => ContractViolation
    end.

Declare Scope method_scope.
Delimit Scope method_scope with method.
Notation "x <- c ;; k" := (bind c (fun x => k))
  (at level 61, c at next level, right associativity) : method_scope.
Notation "c ;; k" := (bind c (fun _ => k))
  (at level 61, right associativity) : method_scope.

(** [Expects(cond)]: the method aborts when the condition does not hold. *)
Definition Expects (cond : bool) : M unit :=
  fun w => if cond then Done (tt, w) else ContractViolation.

Definition self : M HistoryItem := fun w => Done (this w, w).

Definition update (f : HistoryItem -> HistoryItem) : M unit :=
  fun w => Done (tt, {| this := f (this w); calls := calls w |}).

Definition call (c : Call) : M unit :=
  fun w => Done (tt, {| this := this w; calls := calls w ++ [c] |}).

Definition when (cond : bool) (c : M unit) : M unit :=
  if cond then c else ret tt.

(** Running a method on an item, with an empty call log. *)
Definition run {A} (c : M A) (m : HistoryItem) : Result (A * World) :=
  c {| this := m; calls := [] |}.

Create HintDb method discriminated.
#[global] Hint Unfold ret bind Expects self update call when run : method.

(** Runs the monadic plumbing of a method body symbolically. *)
Ltac run_method := autounfold with method; cbn.

(** ** Formatting helpers of [layout.cpp]

    Sizes, offsets and durations are [qint64]; the product [size * 10] wraps
    as a 64-bit signed product would. *)
Definition int64_min : Z := - 2 ^ 63.
Definition int64_max : Z := 2 ^ 63 - 1.
Definition wrap64 (z : Z) : Z := (z + 2 ^ 63) mod 2 ^ 64 - 2 ^ 63.
Definition mul64 (a b : Z) : Z := wrap64 (a * b).

(** A Latin-1 literal as code units. *)
Definition unit_of_ascii (a : Ascii.ascii) : QChar := Z.of_N (Ascii.N_of_ascii a).

Definition qstr (s : String.string) : QString :=
  map unit_of_ascii (String.list_ascii_of_string s).

(** [QString::number(qint64)]: the decimal rendering, with a leading minus
    sign for negative numbers. *)
Definition number (z : Z) : QString :=
  qstr (DecimalString.NilEmpty.string_of_int (Z.to_int z)).

Section Literals.
Import Stdlib.Strings.String.
Local Open Scope string_scope.
Definition qsl_B : QString := qstr " B".
Definition qsl_KB : QString := qstr " KB".
Definition qsl_MB : QString := qstr " MB".
End Literals.

(** [/] and [%] on integers round toward zero: [Z.quot] and [Z.rem]. *)
Definition formatSizeText (size : Z) : QString :=
  if size >=? 1024 * 1024 then
    let sizeTenthMb := Z.quot (mul64 size 10) (1024 * 1024) in
    number (Z.quot sizeTenthMb 10) ++ [46]
    ++ number (Z.rem sizeTenthMb 10) ++ qsl_MB
  else if size >=? 1024 then
    let sizeTenthKb := Z.quot (mul64 size 10) 1024 in
    number (Z.quot sizeTenthKb 10) ++ [46]
    ++ number (Z.rem sizeTenthKb 10) ++ qsl_KB
  else number size ++ qsl_B.

(** A number of minutes or seconds, padded to two digits when below ten. *)
Definition padded x : QString := (if x >=? 10 then [] else [48]) ++ number x.

Definition formatDurationText (duration : Z) : QString :=
  let hours := Z.quot duration 3600 in
  let minutes := Z.quot (Z.rem duration 3600) 60 in
  let seconds := Z.rem duration 60 in
  (if hours =? 0 then [] else number hours ++ [58])
  ++ (if minutes >=? 10 then [] else [48]) ++ number minutes ++ [58]
  ++ (if seconds >=? 10 then [] else [48]) ++ number seconds.


Definition QString_isEmpty (s : QString) : bool :=
  match s with [] => true | _ => false end.

Fixpoint QString_eqb (s t : QString) : bool :=
  match s, t with
  | [], [] => true
  | a :: s', b :: t' => (a =? b) && QString_eqb s' t'
  | _, _ => false
  end.

(** [QString::endsWith] and [QString::startsWith], case sensitive. *)
Definition endsWith (s suffix : QString) : bool :=
  (length suffix <=? length s)%nat
  && QString_eqb (skipn (length s - length suffix) s) suffix.

Definition startsWith (s prefix : QString) : bool :=
  QString_eqb (firstn (length prefix) s) prefix
  && (length prefix <=? length s)%nat.

(** [s.lastIndexOf(c)] when the head of [s] has index [i]. *)
Fixpoint lastIndexOf_from (s : QString) (c : QChar) (i : Z) : Z :=
  match s with
  | [] => -1
  | x :: rest =>
      let later := lastIndexOf_from rest c (i + 1) in
      if later >=? 0 then later else if x =? c then i else -1
  end.

Definition lastIndexOf (s : QString) (c : QChar) : Z := lastIndexOf_from s c 0.

(** [QString::at(i)] for an index inside the string. *)
Definition QString_at (s : QString) (i : Z) : QChar := nth (Z.to_nat i) s 0.

(** [QString::mid(position)]: everything from [position] on. *)
Definition mid_from (s : QString) (position : Z) : QString :=
  skipn (Z.to_nat position) s.

(** [QChar::unicode()]: the code unit as an unsigned 16-bit value. *)
Definition unicode (c : QChar) : Z := c mod 65536.

Record SongData := {
  title : QString;
  performer : QString
}.

Record DocumentData := {
  name : QString;
  mime : QString;
  song : option SongData;
  sticker : bool
}.

Section Literals2.
Import Stdlib.Strings.String.
Local Open Scope string_scope.
Definition qsl_Unknown_File : QString := qstr "Unknown File".
Definition qstr_doc := qstr ".doc".
Definition qstr_txt := qstr ".txt".
Definition qstr_psd := qstr ".psd".
Definition qstr_text_slash := qstr "text/".
Definition qstr_xls := qstr ".xls".
Definition qstr_csv := qstr ".csv".
Definition qstr_pdf := qstr ".pdf".
Definition qstr_ppt := qstr ".ppt".
Definition qstr_key := qstr ".key".
Definition qstr_zip := qstr ".zip".
Definition qstr_rar := qstr ".rar".
Definition qstr_ai := qstr ".ai".
Definition qstr_mp3 := qstr ".mp3".
Definition qstr_mov := qstr ".mov".
Definition qstr_avi := qstr ".avi".
End Literals2.



(** [documentColorIndex] returns the colour index and writes the extension
    through [ext]: the pair of both.  [toLower] is [QString::toLower] and the
    two texts are the language strings [lng_in_dlg_sticker] and
    [lng_message_empty]; a null document is [None]. *)
Definition documentColorIndex (toLower : QString -> QString)
    (lng_in_dlg_sticker lng_message_empty : QString)
    (document : option DocumentData) : Z * QString :=
  let name :=
    toLower
      match document with
      | Some d =>
          if QString_isEmpty (name d)
          then if sticker d then lng_in_dlg_sticker else qsl_Unknown_File
          else name d
      | None => lng_message_empty
      end in
  let lastDot := lastIndexOf name 46 in
  let mime :=
    match document with Some d => toLower (mime d) | None => [] end in
  let colorIndex :=
    if endsWith name qstr_doc || endsWith name qstr_txt
       || endsWith name qstr_psd || startsWith mime qstr_text_slash then 0
    else if endsWith name qstr_xls || endsWith name qstr_csv then 1
    else if endsWith name qstr_pdf || endsWith name qstr_ppt
            || endsWith name qstr_key then 2
    else if endsWith name qstr_zip || endsWith name qstr_rar
            || endsWith name qstr_ai || endsWith name qstr_mp3
            || endsWith name qstr_mov || endsWith name qstr_avi then 3
    else
      let ch :=
        if (lastDot >=? 0) && (lastDot + 1 <? size name)
        then QString_at name (lastDot + 1)
        else if QString_isEmpty name
             then if QString_isEmpty mime then 48 else QString_at mime 0
             else QString_at name 0 in
      Z.rem (unicode ch) 4 in
  let ext :=
    match document with
    | Some _ =>
        if (lastDot <? 0) || (lastDot + 2 >? size name) then name
        else mid_from name (lastDot + 1)
    | None => []
    end in
  (colorIndex, ext).

(** The style entries of the four file colour families. *)
Inductive FileTint := Blue | Green | Red | Yellow.

Inductive StyleEntry :=
| msgFileBlueColor | msgFileGreenColor | msgFileRedColor | msgFileYellowColor
| msgFileBlueDark | msgFileGreenDark | msgFileRedDark | msgFileYellowDark
| msgFileBlueOver | msgFileGreenOver | msgFileRedOver | msgFileYellowOver
| msgFileBlueSelected | msgFileGreenSelected | msgFileRedSelected
| msgFileYellowSelected
| msgFileBlue | msgFileGreen | msgFileRed | msgFileYellow.

Definition tint_of (e : StyleEntry) : FileTint :=
  match e with
  | msgFileBlueColor | msgFileBlueDark | msgFileBlueOver
  | msgFileBlueSelected | msgFileBlue => Blue
  | msgFileGreenColor | msgFileGreenDark | msgFileGreenOver
  | msgFileGreenSelected | msgFileGreen => Green
  | msgFileRedColor | msgFileRedDark | msgFileRedOver
  | msgFileRedSelected | msgFileRed => Red
  | msgFileYellowColor | msgFileYellowDark | msgFileYellowOver
  | msgFileYellowSelected | msgFileYellow => Yellow
  end.

(** [table[colorIndex & 3]]: [None] would be a read outside the table. *)
Definition table_at {A : Type} (table : list A) (colorIndex : Z) : option A :=
  nth_error table (Z.to_nat (Z.land colorIndex 3)).

Definition documentColor (colorIndex : Z) : option StyleEntry :=
  table_at [msgFileBlueColor; msgFileGreenColor; msgFileRedColor;
            msgFileYellowColor] colorIndex.

Definition documentDarkColor (colorIndex : Z) : option StyleEntry :=
  table_at [msgFileBlueDark; msgFileGreenDark; msgFileRedDark;
            msgFileYellowDark] colorIndex.

Definition documentOverColor (colorIndex : Z) : option StyleEntry :=
  table_at [msgFileBlueOver; msgFileGreenOver; msgFileRedOver;
            msgFileYellowOver] colorIndex.

Definition documentSelectedColor (colorIndex : Z) : option StyleEntry :=
  table_at [msgFileBlueSelected; msgFileGreenSelected; msgFileRedSelected;
            msgFileYellowSelected] colorIndex.

Definition documentCorner (colorIndex : Z) : option StyleEntry :=
  table_at [msgFileBlue; msgFileGreen; msgFileRed; msgFileYellow] colorIndex.

(** [RoundCorners(DocBlueCorners + (colorIndex & 3))], as the enum's value. *)
Definition documentCorners (DocBlueCorners : Z) (colorIndex : Z) : Z :=
  DocBlueCorners + Z.land colorIndex 3.

(** The geometry members of a photo tile of the media overview. *)
Record LayoutOverviewPhoto := {
  _maxw : Z;
  _width : Z;
  _height : Z
}.

Definition LayoutOverviewPhoto_resizeGetHeight (l : LayoutOverviewPhoto)
    (width : Z) : Z * LayoutOverviewPhoto :=
  let width := Z.min width (_maxw l) in
  let l' :=
    if negb (width =? _width l) || negb (width =? _height l)
    then {| _maxw := _maxw l;
            _width := Z.min width (_maxw l);
            _height := Z.min width (_maxw l) |}
    else l in
  (_height l', l').

(** [a * b] on [int32] operands. *)
Definition mul32 (a b : Z) : Z := wrap32 (a * b).

(** The pixel size the link tile of the overview gives its thumbnail: the
    scaled width [tw] and height [th] of the page's thumbnail are fitted to
    the style's [dlgPhotoSize], then raised to at least one pixel
    ([_pixw], [_pixh]). *)
Definition LayoutOverviewLink_pix (dlgPhotoSize tw th : Z) : Z * Z :=
  let fitted :=
    if tw >? dlgPhotoSize then
      if th >? tw then
        (dlgPhotoSize, Z.quot (mul32 th dlgPhotoSize) tw)
      else if th >? dlgPhotoSize then
        (Z.quot (mul32 tw dlgPhotoSize) th, dlgPhotoSize)
      else (tw, th)
    else (tw, th) in
  (Z.max (fst fitted) 1, Z.max (snd fitted) 1).

(** ** Sample instances of the parts declared outside the translated file *)

(** A well-formed flag layout, used to run the model on concrete messages. *)
Definition sample_bit_of (f : MessageFlag) : Z :=
  match f with
  | f_out => 1
  | f_mentioned => 4
  | f_media_unread => 5
  | f_reply_markup => 6
  | f_post => 14
  | f_post_author => 16
  | f_legacy => 19
  | f_is_group_migrate => 29
  | f_clientside_unread => 26
  | f_sending => 24
  | f_failed => 23
  end.

(** Modelled from the spec: [IsClientMsgId] and [IsServerMsgId] are declared
    outside the translated file.  The spec describes two disjoint id ranges,
    the local one negative and the server one assigned by the backend; the
    sample predicates take the negative and the positive integers. *)
Definition sample_IsClientMsgId (i : MsgId) : bool := i <? 0.
Definition sample_IsServerMsgId (i : MsgId) : bool := 0 <? i.

(** A sample read position: the conversation has read everything below
    id 100, in both directions. *)
Definition sample_isServerSideUnread (h : History) (m : HistoryItem) : bool :=
  100 <=? id m.

Definition no_components : Components :=
  {| Reply := None; Forwarded := None; Via := false; Signed := None;
     ReplyMarkup := None; LogEntryOriginal := false; ServicePinned := false |}.

Definition plain_user : PeerData :=
  {| kind := UserPeer {| isBot := false; isSupport := false |};
     isSelf := false; migrateTo := false; canPinMessages := true;
     pinnedMessageId := 0 |}.

Definition broadcast_channel : PeerData :=
  {| kind := ChannelPeer {| channel_isMegagroup := false;
                            canDeleteMessages := false; canPublish := true;
                            canWrite := true; canEditMessages := false |};
     isSelf := false; migrateTo := false; canPinMessages := false;
     pinnedMessageId := 0 |}.

Definition history_of (p : PeerData) : History :=
  {| peer := p; notifyAboutPinned := true |}.

Definition body_of (s : QString) : TextString :=
  {| text_isEmpty := match s with [] => true | _ => false end;
     toString := s |}.

(** A content message of conversation [p] with the given id, flag word, date
    and body, and no media or components. *)
Definition message_in (p : PeerData) (i : MsgId) (fl : Flags) (d : TimeId)
    (s : QString) : HistoryItem :=
  {| id := i; _history := history_of p; _flags := fl; _date := d;
     _groupId := 0; components := no_components; _media := None;
     _text := body_of s; isLogEntry := false; serviceMsg := false;
     toHistoryMessage := true; isGroupMigrate := false |}.

Definition sample_config : GlobalConfig :=
  {| RevokePrivateTimeLimit := 172800; RevokeTimeLimit := 172800;
     RevokePrivateInbox := false; ChannelsReadMediaPeriod := 604800 |}.

Definition sample_mask (f : MessageFlag) : Flags :=
  Z.shiftl 1 (sample_bit_of f).

(** An outgoing message still being sent to a user, with provisional id -5. *)
Definition provisional_minus5 : HistoryItem :=
  message_in plain_user (-5) (sample_mask f_out + sample_mask f_sending)
    1500000000 [104; 105].

(** A channel post still being sent, with provisional id -17 and the
    pending-send flag alone. *)
Definition provisional_minus17 : HistoryItem :=
  message_in broadcast_channel (-17) (sample_mask f_sending)
    1500000000 [104; 105].

(** An incoming message that mentions the user and has unread media. *)
Definition unread_mention : HistoryItem :=
  message_in plain_user 9002
    (sample_mask f_mentioned + sample_mask f_media_unread)
    1500000000 [104; 105].

(** A sample [toLower]: lower case of the ASCII letters. *)
Definition ascii_toLower (s : QString) : QString :=
  map (fun c => if (65 <=? c) && (c <=? 90) then c + 32 else c) s.

(** A post of the broadcast channel with unread media, sent at 1500000000. *)
Definition channel_voice_post : HistoryItem :=
  message_in broadcast_channel 9003
    (sample_mask f_post + sample_mask f_media_unread) 1500000000 [].

(** An incoming message generated on the client, still unread. *)
Definition local_notice : HistoryItem :=
  message_in plain_user (-9) (sample_mask f_clientside_unread)
    1500000000 [104; 105].

(** ** The methods of [HistoryItem] *)

Section Item.

Variable bit_of : MessageFlag -> Z.

(** [IsClientMsgId], [IsServerMsgId] and [History::isServerSideUnread] are
    declared outside the translated file and are parameters here. *)
Variable IsClientMsgId : MsgId -> bool.
Variable IsServerMsgId : MsgId -> bool.
Variable isServerSideUnread : History -> HistoryItem -> bool.

Definition mask (f : MessageFlag) : Flags := Z.shiftl 1 (bit_of f).

(** [flags & f] read as a condition: the conjunction is non-zero. *)
Definition has (fl : Flags) (f : MessageFlag) : bool :=
  negb (Z.land fl (mask f) =? 0).

(** [flags | f] *)
Definition flag_or (fl : Flags) (f : MessageFlag) : Flags :=
  Z.lor fl (mask f).

(** [flags & ~f] *)
Definition flag_and_not (fl : Flags) (f : MessageFlag) : Flags :=
  Z.land fl (lnot32 (mask f)).

Definition out (m : HistoryItem) : bool := has (_flags m) f_out.

Definition isPost (m : HistoryItem) : bool := has (_flags m) f_post.

Definition emptyText (m : HistoryItem) : bool := text_isEmpty (_text m).

Definition inlineReplyMarkup (m : HistoryItem)
    : option HistoryMessageReplyMarkup :=
  match ReplyMarkup (components m) with
  | Some markup => if markup_inline markup then Some markup else None
  | None => None
  end.

Definition mentionsMe (m : HistoryItem) : bool :=
  if ServicePinned (components m) && negb (notifyAboutPinned (_history m))
  then false
  else has (_flags m) f_mentioned.

Definition isUnreadMention (m : HistoryItem) : bool :=
  mentionsMe m && has (_flags m) f_media_unread.

Definition markMediaRead : M unit :=
  (update (fun m => set_flags m (flag_and_not (_flags m) f_media_unread)) ;;
   me <- self ;;
   when (mentionsMe me)
     (call updateChatListEntry ;;
      call (eraseFromUnreadMentions (id me))))%method.

Definition setRealId (newId : MsgId) : M unit :=
  (me <- self ;;
   Expects (has (_flags me) f_sending) ;;
   Expects (IsClientMsgId (id me)) ;;
   let oldId := id me in
   update (fun m => set_id m newId) ;;
   update (fun m => set_flags m (flag_and_not (_flags m) f_sending)) ;;
   me <- self ;;
   when (IsServerMsgId (id me)) (call unregisterLocalMessage) ;;
   call (notifyItemIdChange oldId) ;;
   when (match inlineReplyMarkup me with
         | Some markup => inlineKeyboard markup
         | None => false
         end)
     (call updateMessageId) ;;
   call requestItemRepaint)%method.

Definition sendFailed : M unit :=
  (me <- self ;;
   Expects (has (_flags me) f_sending) ;;
   Expects (negb (has (_flags me) f_failed)) ;;
   update (fun m =>
     set_flags m (flag_and_not (flag_or (_flags m) f_failed) f_sending)) ;;
   me <- self ;;
   when (isChannel (peer (_history me)))
     (call (peerUpdatedDelayed ChannelLocalMessages)))%method.

Definition needCheck (m : HistoryItem) : bool :=
  out m || ((id m <? 0) && isSelf (peer (_history m))).

Definition unread (m : HistoryItem) : bool :=
  let h := _history m in
  if isSelf (peer h) then false
  else if out m then
    if migrateTo (peer h) then false
    else if IsServerMsgId (id m) then
      if negb (isServerSideUnread h m) then false
      else
        match asUser (peer h) with
        | Some user => if isBot user then false else true
        | None =>
            match asChannel (peer h) with
            | Some channel =>
                if negb (channel_isMegagroup channel) then false else true
            | None => true
            end
        end
    else true
  else if IsServerMsgId (id m) then
    if negb (isServerSideUnread h m) then false else true
  else has (_flags m) f_clientside_unread.

Definition canDelete (m : HistoryItem) : bool :=
  if isLogEntry m || (negb (IsServerMsgId (id m)) && serviceMsg m) then false
  else
    match asChannel (peer (_history m)) with
    | None => negb (isGroupMigrate m)
    | Some channel =>
        if id m =? 1 then false
        else if canDeleteMessages channel then true
        else if out m && toHistoryMessage m then
          if isPost m then canPublish channel else true
        else false
    end.

Definition canDeleteForEveryone (g : GlobalConfig) (m : HistoryItem)
    (now : TimeId) : bool :=
  let p := peer (_history m) in
  let messageToMyself := isSelf p in
  let messageTooOld :=
    if messageToMyself then false
    else if isUser p then sub32 now (_date m) >=? RevokePrivateTimeLimit g
    else sub32 now (_date m) >=? RevokeTimeLimit g in
  if (id m <? 0) || messageToMyself || messageTooOld || isPost m then false
  else if isChannel p then false
  else if match asUser p with
          | Some user => isBot user && negb (isSupport user)
          | None => false
          end then false
  else if negb (isUser p)
          && (negb (toHistoryMessage m)
              || match _media m with
                 | Some media => negb (allowsRevoke media)
                 | None => false
                 end) then false
  else if negb (out m) then
    match asChat p with
    | Some chat =>
        if negb (amCreator chat) && negb (adminRights_delete_messages chat)
        then false
        else true
    | None => if isUser p then RevokePrivateInbox g else false
    end
  else true.

(** The text the notification is cut from: the [result] of the source. *)
Definition notification_summary (m : HistoryItem) : QString :=
  match _media m with
  | Some media => media_notificationText media
  | None => if negb (emptyText m) then toString (_text m) else []
  end.

Definition notificationText (m : HistoryItem) : QString :=
  let result := notification_summary m in
  if size result <=? kNotificationTextLimit then result
  else mid result 0 kNotificationTextLimit ++ qsl_dots.

(** The peers whose outgoing messages count as read once sent: bots and
    channels that are not megagroups. *)
Definition read_once_sent (p : PeerData) : bool :=
  match kind p with
  | UserPeer user => isBot user
  | ChatPeer _ => false
  | ChannelPeer channel => negb (channel_isMegagroup channel)
  end.

(** The calls [setRealId] makes, in order. *)
Definition setRealId_calls (m : HistoryItem) (newId : MsgId) : list Call :=
  (if IsServerMsgId newId then [unregisterLocalMessage] else [])
  ++ [notifyItemIdChange (id m)]
  ++ (if match inlineReplyMarkup m with
         | Some markup => inlineKeyboard markup
         | None => false
         end
      then [updateMessageId] else [])
  ++ [requestItemRepaint].

(** ** Sequences of reconciliation calls *)

Inductive ReconcileCall :=
| CallSetRealId (newId : MsgId)
| CallSendFailed.

Definition reconcile (c : ReconcileCall) : M unit :=
  match c with
  | CallSetRealId newId => setRealId newId
  | CallSendFailed => sendFailed
  end.

(** The items observed after each call of a sequence; a contract violation
    ends the sequence, since the process stops there. *)
Fixpoint reconcile_states (cs : list ReconcileCall) (w : World)
    : list HistoryItem :=
  match cs with
  | [] => []
  | c :: rest =>
      match reconcile c w with
      | Done (_, w') => this w' :: reconcile_states rest w'
      | ContractViolation => []
      end
  end.

(** At most one of pending-send and send-failed. *)
Definition sending_xor_failed (m : HistoryItem) : bool :=
  negb (has (_flags m) f_sending && has (_flags m) f_failed).

(** ** Further methods of [HistoryItem] *)

Definition set_groupId (m : HistoryItem) (groupId : MessageGroupId)
    : HistoryItem :=
  {| id := id m; _history := _history m; _flags := _flags m;
     _date := _date m; _groupId := groupId; components := components m;
     _media := _media m; _text := _text m; isLogEntry := isLogEntry m;
     serviceMsg := serviceMsg m; toHistoryMessage := toHistoryMessage m;
     isGroupMigrate := isGroupMigrate m |}.

(** Calls on the owning conversation and its data session made by the
    constructor and by [setGroupId], next to the calls of the methods run
    in [M]. *)
Inductive OwnerCall :=
| registerLocalMessage
| groups_registerMessage
| method_call (c : Call).

(** The constructor initialises the id, the conversation, the flags and the
    date, and registers a message with a client id in the local-message
    index.  [rest] stands for the members the subclasses initialise; the
    sender, which no modelled method reads, is not a member of the record. *)
Definition HistoryItem_new (history : History) (msgId : MsgId)
    (flags : Flags) (date : TimeId) (rest : HistoryItem)
    : HistoryItem * list OwnerCall :=
  ({| id := msgId; _history := history; _flags := flags; _date := date;
      _groupId := _groupId rest; components := components rest;
      _media := _media rest; _text := _text rest;
      isLogEntry := isLogEntry rest; serviceMsg := serviceMsg rest;
      toHistoryMessage := toHistoryMessage rest;
      isGroupMigrate := isGroupMigrate rest |},
   if IsClientMsgId msgId then [registerLocalMessage] else []).

(** The world a sequence of reconciliation calls ends in: a contract
    violation stops the process in the world it was called in. *)
Fixpoint reconcile_run (cs : list ReconcileCall) (w : World) : World :=
  match cs with
  | [] => w
  | c :: rest =>
      match reconcile c w with
      | Done (_, w') => reconcile_run rest w'
      | ContractViolation => w
      end
  end.

(** Every call made on behalf of a message: by its constructor, then by the
    reconciliation calls [cs]. *)
Definition lifecycle_calls (history : History) (msgId : MsgId)
    (flags : Flags) (date : TimeId) (rest : HistoryItem)
    (cs : list ReconcileCall) : list OwnerCall :=
  let built := HistoryItem_new history msgId flags date rest in
  snd built
  ++ map method_call
       (calls (reconcile_run cs {| this := fst built; calls := [] |})).

Definition is_register (c : OwnerCall) : bool :=
  match c with registerLocalMessage => true | _ => false end.

Definition is_unregister (c : OwnerCall) : bool :=
  match c with method_call unregisterLocalMessage => true | _ => false end.

(** A group id read as a condition: it is not [MessageGroupId::None],
    which is 0. *)
Definition groupId_set (groupId : MessageGroupId) : bool :=
  negb (groupId =? 0).

(** [setGroupId] starts with [Expects(!_groupId)]. *)
Definition setGroupId (groupId : MessageGroupId) (m : HistoryItem)
    : Result (HistoryItem * list OwnerCall) :=
  if negb (groupId_set (_groupId m)) then
    Done (set_groupId m groupId, [groups_registerMessage])
  else ContractViolation.

(** [now] is the reading of [base::unixtime::now()]. *)
Definition hasUnreadMediaFlag (g : GlobalConfig) (now : TimeId)
    (m : HistoryItem) : bool :=
  if isChannel (peer (_history m)) then
    let passed := sub32 now (_date m) in
    if passed >=? ChannelsReadMediaPeriod g then false
    else has (_flags m) f_media_unread
  else has (_flags m) f_media_unread.

Definition markClientSideAsRead : M unit :=
  update (fun m =>
    set_flags m (flag_and_not (_flags m) f_clientside_unread)).

Definition definesReplyKeyboard (m : HistoryItem) : bool :=
  match ReplyMarkup (components m) with
  | Some markup => if markup_inline markup then false else true
  | None => has (_flags m) f_reply_markup
  end.

(** What [replyKeyboardFlags] returns: the flags of the markup component,
    or the bare [f_zero] flag when the component was not created. *)
Inductive ReplyKeyboardFlags :=
| flags_of_markup (markup : HistoryMessageReplyMarkup)
| f_zero.

Definition replyKeyboardFlags : M ReplyKeyboardFlags :=
  (me <- self ;;
   Expects (definesReplyKeyboard me) ;;
   match ReplyMarkup (components me) with
   | Some markup => ret (flags_of_markup markup)
   | None => ret f_zero
   end)%method.

Definition canPin (m : HistoryItem) : bool :=
  if (id m <? 0) || negb (toHistoryMessage m) then false
  else canPinMessages (peer (_history m)).

Definition canStopPoll (m : HistoryItem) : bool :=
  if (id m <? 0) || Via (components m)
     || match Forwarded (components m) with Some _ => true | None => false end
  then false
  else
    let p := peer (_history m) in
    if isSelf p then true
    else
      match asChannel p with
      | Some channel =>
          if isPost m && canEditMessages channel then true
          else if out m then
            if isPost m then canPublish channel else canWrite channel
          else false
      | None => out m
      end.

(** ** The chat-list text cache *)

(** The address of an item, as [cacheFor] and [textCachedFor] hold it. *)
Definition ItemPtr := nat.

Record QRect := {
  rect_left : Z;
  rect_top : Z;
  rect_width : Z;
  rect_height : Z
}.

(** [QRect::isEmpty()]: no column or no row. *)
Definition QRect_isEmpty (r : QRect) : bool :=
  (rect_width r <=? 0) || (rect_height r <=? 0).

(** The palette and pen follow the row: active, else selected, else plain. *)
Inductive RowStyle := RowActive | RowOver | RowPlain.

Definition row_style (active selected : bool) : RowStyle :=
  if active then RowActive else if selected then RowOver else RowPlain.

Inductive PaintCall :=
| repaintDialogRow
| cache_setText (text : QString)
| setTextPalette (style : RowStyle)
| setFont
| setPen (style : RowStyle)
| cache_drawElided (left top width lines : Z)
| restoreTextPalette.

Definition ItemPtr_differs (cacheFor : option ItemPtr) (self : ItemPtr)
    : bool :=
  match cacheFor with
  | Some other => negb (Nat.eqb other self)
  | None => true
  end.

(** [invalidateChatListEntry] on the item at [self]: [main] tells whether
    the main widget exists; the result is the new [textCachedFor] of the
    conversation. *)
Definition invalidateChatListEntry (self : ItemPtr) (main : bool)
    (textCachedFor : option ItemPtr) : option ItemPtr * list PaintCall :=
  (if ItemPtr_differs textCachedFor self then textCachedFor else None,
   if main then [repaintDialogRow] else []).

(** [drawInDialog] on the item at [self]; [text] is what [inDialogsText]
    gives for the item now, [fontHeight] the height of the dialogs font.
    The result is the new [cacheFor]. *)
Definition drawInDialog (self : ItemPtr) (text : QString)
    (fontHeight : Z) (r : QRect) (active selected : bool)
    (cacheFor : option ItemPtr) : option ItemPtr * list PaintCall :=
  if QRect_isEmpty r then (cacheFor, [])
  else
    let refreshed :=
      if ItemPtr_differs cacheFor self
      then (Some self, [cache_setText text])
      else (cacheFor, []) in
    (fst refreshed,
     snd refreshed
     ++ [setTextPalette (row_style active selected);
         setFont;
         setPen (row_style active selected);
         cache_drawElided (rect_left r) (rect_top r) (rect_width r)
           (Z.quot (rect_height r) fontHeight);
         restoreTextPalette]).

Definition is_setText (c : PaintCall) : bool :=
  match c with cache_setText _ => true | _ => false end.

(** ** Construction dispatch *)

Inductive MTPMessageAction :=
| MTPDmessageActionPhoneCall
| MTPDmessageAction_other.

Record MTPDmessage := {
  vid : MsgId;
  vflags : Flags;
  vreply_to_msg_id : option MsgId;
  vvia_bot_id : option Z;
  vdate : TimeId;
  vfrom_id : option Z;
  vmedia : option MTPMessageMedia
}.

Record MTPDmessageService := {
  service_vid : MsgId;
  vaction : MTPMessageAction
}.

Inductive MTPMessage :=
| MTPmessage (data : MTPDmessage)
| MTPmessageService (data : MTPDmessageService)
| MTPmessageEmpty (emptyId : MsgId).

(** [value_or_empty()] of an optional integer field. *)
Definition value_or_empty (v : option Z) : Z :=
  match v with Some x => x | None => 0 end.

(** The factory call [Create] ends in, with its arguments: an ordinary or a
    service message built from the payload, the placeholder with the
    unsupported notice, or a service message with the empty notice. *)
Inductive Created :=
| makeMessage_data (data : MTPDmessage)
| makeServiceMessage_data (data : MTPDmessage)
| makeMessage_unsupported (msgId : MsgId) (flags : Flags) (replyTo : MsgId)
    (viaBotId : Z) (date : TimeId) (from : Z)
| makeServiceMessage_empty (msgId : MsgId) (date : TimeId)
    (flags_from : option (Flags * Z))
| makeMessage_service (data : MTPDmessageService)
| makeServiceMessage_service (data : MTPDmessageService).

Definition CreateUnsupportedMessage (msgId : MsgId) (flags : Flags)
    (replyTo : MsgId) (viaBotId : Z) (date : TimeId) (from : Z) : Created :=
  let flags := flag_and_not flags f_post_author in
  let flags := flag_or flags f_legacy in
  makeMessage_unsupported msgId flags replyTo viaBotId date from.

Definition Create (message : MTPMessage) : Created :=
  match message with
  | MTPmessage data =>
      let checked :=
        match vmedia data with
        | Some media => CheckMessageMedia media
        | None => Good
        end in
      match checked with
      | Unsupported =>
          CreateUnsupportedMessage (vid data) (vflags data)
            (value_or_empty (vreply_to_msg_id data))
            (value_or_empty (vvia_bot_id data)) (vdate data)
            (value_or_empty (vfrom_id data))
      | Empty =>
          makeServiceMessage_empty (vid data) (vdate data)
            (Some (vflags data, value_or_empty (vfrom_id data)))
      | HasTimeToLive => makeServiceMessage_data data
      | Good => makeMessage_data data
      end
  | MTPmessageService data =>
      match vaction data with
      | MTPDmessageActionPhoneCall => makeMessage_service data
      | MTPDmessageAction_other => makeServiceMessage_service data
      end
  | MTPmessageEmpty emptyId => makeServiceMessage_empty emptyId 0 None
  end.

(** ** Properties of the flag word *)

Lemma distinctb_NoDup (l : list Z) : distinctb l = true -> NoDup l.
Proof.
  induction l as [|a l IH]; simpl; intros H.
  - constructor.
  - apply andb_prop in H as [Ha Hl].
    constructor; [|now apply IH].
    intros Hin. apply negb_true_iff in Ha.
    assert (existsb (Z.eqb a) l = true) as E.
    { apply existsb_exists. exists a. split; [exact Hin|apply Z.eqb_refl]. }
    congruence.
Qed.

Lemma NoDup_map_injective {A : Type} (f : A -> Z) (l : list A) :
  NoDup (map f l) ->
  forall x y, In x l -> In y l -> f x = f y -> x = y.
Proof.
  induction l as [|a l IH]; simpl; intros Hnd x y Hx Hy E.
  - contradiction.
  - inversion Hnd as [|? ? Hnotin Hnd']; subst.
    destruct Hx as [<-|Hx], Hy as [<-|Hy].
    + reflexivity.
    + exfalso. apply Hnotin. rewrite E. now apply in_map.
    + exfalso. apply Hnotin. rewrite <- E. now apply in_map.
    + now apply IH.
Qed.

Lemma all_flags_complete (f : MessageFlag) : In f all_flags.
Proof. destruct f; simpl; tauto. Qed.

Hypothesis layout : layout_ok bit_of = true.

Lemma bit_of_range (f : MessageFlag) : 0 <= bit_of f < 32.
Proof.
  unfold layout_ok in layout. apply andb_prop in layout as [Hr _].
  rewrite forallb_forall in Hr.
  specialize (Hr f (all_flags_complete f)).
  apply andb_prop in Hr as [H0 H32]. lia.
Qed.

Lemma bit_of_inj (f g : MessageFlag) : bit_of f = bit_of g -> f = g.
Proof.
  unfold layout_ok in layout. apply andb_prop in layout as [_ Hd].
  apply distinctb_NoDup in Hd.
  apply (NoDup_map_injective bit_of all_flags Hd);
    apply all_flags_complete.
Qed.

Lemma testbit_mask (f : MessageFlag) (i : Z) :
  Z.testbit (mask f) i = (i =? bit_of f).
Proof.
  unfold mask. pose proof (bit_of_range f) as Hr.
  rewrite Z.shiftl_1_l, Z.pow2_bits_eqb by lia.
  apply Z.eqb_sym.
Qed.

Lemma has_testbit (fl : Flags) (f : MessageFlag) :
  has fl f = Z.testbit fl (bit_of f).
Proof.
  unfold has. destruct (Z.testbit fl (bit_of f)) eqn:E.
  - destruct (Z.eqb_spec (Z.land fl (mask f)) 0) as [H0|]; [|reflexivity].
    exfalso.
    assert (Z.testbit (Z.land fl (mask f)) (bit_of f) = true) as T.
    { rewrite Z.land_spec, testbit_mask, E, Z.eqb_refl. reflexivity. }
    rewrite H0, Z.bits_0 in T. discriminate.
  - replace (Z.land fl (mask f)) with 0; [reflexivity|].
    symmetry. apply Z.bits_inj'. intros n _.
    rewrite Z.land_spec, testbit_mask, Z.bits_0.
    destruct (Z.eqb_spec n (bit_of f)) as [->|_].
    + rewrite E. reflexivity.
    + apply andb_false_r.
Qed.

Lemma testbit_flag_or (fl : Flags) (f : MessageFlag) (i : Z) :
  Z.testbit (flag_or fl f) i = Z.testbit fl i || (i =? bit_of f).
Proof. unfold flag_or. now rewrite Z.lor_spec, testbit_mask. Qed.

Lemma testbit_flag_and_not (fl : Flags) (f : MessageFlag) (i : Z) :
  0 <= i < 32 ->
  Z.testbit (flag_and_not fl f) i = Z.testbit fl i && negb (i =? bit_of f).
Proof.
  intros Hi. unfold flag_and_not, lnot32.
  rewrite Z.land_spec, Z.lxor_spec, testbit_mask.
  rewrite Z.ones_spec_low by lia.
  now rewrite xorb_true_r.
Qed.

Lemma has_flag_or_same (fl : Flags) (f : MessageFlag) :
  has (flag_or fl f) f = true.
Proof.
  rewrite has_testbit, testbit_flag_or, Z.eqb_refl. apply orb_true_r.
Qed.

Lemma has_flag_or_other (fl : Flags) (f g : MessageFlag) :
  g <> f -> has (flag_or fl f) g = has fl g.
Proof.
  intros Hne. rewrite !has_testbit, testbit_flag_or.
  destruct (Z.eqb_spec (bit_of g) (bit_of f)) as [E|_].
  - exfalso. apply Hne. now apply bit_of_inj.
  - apply orb_false_r.
Qed.

Lemma has_flag_and_not_same (fl : Flags) (f : MessageFlag) :
  has (flag_and_not fl f) f = false.
Proof.
  rewrite has_testbit, testbit_flag_and_not by apply bit_of_range.
  rewrite Z.eqb_refl. apply andb_false_r.
Qed.

Lemma has_flag_and_not_other (fl : Flags) (f g : MessageFlag) :
  g <> f -> has (flag_and_not fl f) g = has fl g.
Proof.
  intros Hne.
  rewrite !has_testbit, testbit_flag_and_not by apply bit_of_range.
  destruct (Z.eqb_spec (bit_of g) (bit_of f)) as [E|_].
  - exfalso. apply Hne. now apply bit_of_inj.
  - apply andb_true_r.
Qed.

(** ** The reconciliation methods on an arbitrary world *)

Lemma setRealId_done (newId : MsgId) (w : World) :
  has (_flags (this w)) f_sending = true ->
  IsClientMsgId (id (this w)) = true ->
  setRealId newId w =
  Done (tt, {| this := set_flags (set_id (this w) newId)
                         (flag_and_not (_flags (this w)) f_sending);
               calls := calls w ++ setRealId_calls (this w) newId |}).
Proof.
  intros Hs Hc.
  unfold setRealId, setRealId_calls, inlineReplyMarkup. run_method.
  rewrite Hs, Hc. cbn.
  destruct (IsServerMsgId newId); cbn;
    destruct (ReplyMarkup (components (this w))) as [[[] []]|]; cbn;
    rewrite <- ?app_assoc; reflexivity.
Qed.

Lemma setRealId_violation (newId : MsgId) (w : World) :
  has (_flags (this w)) f_sending = false \/
  IsClientMsgId (id (this w)) = false ->
  setRealId newId w = ContractViolation.
Proof.
  intros H. unfold setRealId. run_method.
  destruct (has (_flags (this w)) f_sending); [|reflexivity].
  destruct H as [H|H]; [discriminate|]. rewrite H. reflexivity.
Qed.

Lemma sendFailed_done (w : World) :
  has (_flags (this w)) f_sending = true ->
  has (_flags (this w)) f_failed = false ->
  sendFailed w =
  Done (tt, {| this := set_flags (this w)
                         (flag_and_not (flag_or (_flags (this w)) f_failed)
                            f_sending);
               calls := calls w ++
                        (if isChannel (peer (_history (this w)))
                         then [peerUpdatedDelayed ChannelLocalMessages]
                         else []) |}).
Proof.
  intros Hs Hf.
  unfold sendFailed. run_method. rewrite Hs, Hf. cbn.
  destruct (isChannel (peer (_history (this w)))); cbn;
    rewrite ?app_nil_r; reflexivity.
Qed.

Lemma sendFailed_violation (w : World) :
  has (_flags (this w)) f_sending = false \/
  has (_flags (this w)) f_failed = true ->
  sendFailed w = ContractViolation.
Proof.
  intros H. unfold sendFailed. run_method.
  destruct (has (_flags (this w)) f_sending); [|reflexivity].
  destruct H as [H|H]; [discriminate|]. rewrite H. reflexivity.
Qed.

(** Whichever reconciliation call returns, it leaves pending-send clear. *)
Lemma reconcile_clears_sending (c : ReconcileCall) (w w' : World) (u : unit) :
  reconcile c w = Done (u, w') ->
  has (_flags (this w')) f_sending = false.
Proof.
  destruct c as [newId|]; cbn [reconcile]; intros R.
  - destruct (has (_flags (this w)) f_sending) eqn:Hs;
      [|rewrite setRealId_violation in R by (now left); discriminate].
    destruct (IsClientMsgId (id (this w))) eqn:Hc;
      [|rewrite setRealId_violation in R by (now right); discriminate].
    rewrite (setRealId_done newId w Hs Hc) in R.
    injection R as R. subst w'. cbn. apply has_flag_and_not_same.
  - destruct (has (_flags (this w)) f_sending) eqn:Hs;
      [|rewrite sendFailed_violation in R by (now left); discriminate].
    destruct (has (_flags (this w)) f_failed) eqn:Hf;
      [rewrite sendFailed_violation in R by (now right); discriminate|].
    rewrite (sendFailed_done w Hs Hf) in R.
    injection R as R. subst w'. cbn. apply has_flag_and_not_same.
Qed.

Lemma reconcile_needs_sending (c : ReconcileCall) (w : World) :
  has (_flags (this w)) f_sending = false ->
  reconcile c w = ContractViolation.
Proof.
  intros Hs. destruct c; cbn [reconcile].
  - apply setRealId_violation. now left.
  - apply sendFailed_violation. now left.
Qed.

(** ** Identity reconciliation *)

(** C1: for a message in the Provisional state (pending-send set, id in the
    client range), [setRealId newId] returns; it replaces the id with
    [newId], clears pending-send and leaves every other flag as it was,
    unregisters the message from the local-message index exactly when
    [newId] is in the server range, and notifies the id change with the old
    id (and with no other id). *)
Theorem setRealId_confirms (m : HistoryItem) (newId : MsgId) :
  has (_flags m) f_sending = true ->
  IsClientMsgId (id m) = true ->
  let m' := set_flags (set_id m newId) (flag_and_not (_flags m) f_sending) in
  let log := setRealId_calls m newId in
  run (setRealId newId) m = Done (tt, {| this := m'; calls := log |}) /\
  id m' = newId /\
  has (_flags m') f_sending = false /\
  (forall g, g <> f_sending -> has (_flags m') g = has (_flags m) g) /\
  (In unregisterLocalMessage log <-> IsServerMsgId newId = true) /\
  (forall oldId, In (notifyItemIdChange oldId) log <-> oldId = id m).
Proof.
  intros Hs Hc m' log. subst m' log.
  split; [|split; [|split; [|split; [|split]]]].
  - unfold run. rewrite setRealId_done by assumption. reflexivity.
  - reflexivity.
  - cbn. apply has_flag_and_not_same.
  - intros g Hg. cbn. now apply has_flag_and_not_other.
  - unfold setRealId_calls.
    generalize (match inlineReplyMarkup m with
                | Some markup => inlineKeyboard markup
                | None => false
                end) as keyboard.
    destruct (IsServerMsgId newId); intros []; cbn;
      intuition (discriminate || congruence).
  - intros oldId. unfold setRealId_calls.
    generalize (match inlineReplyMarkup m with
                | Some markup => inlineKeyboard markup
                | None => false
                end) as keyboard.
    destruct (IsServerMsgId newId); intros []; cbn;
      intuition (discriminate || congruence).
Qed.

(** C2: on a message that is pending-send and not failed, [sendFailed]
    returns; it sets send-failed, clears pending-send, leaves the id and
    every other flag unchanged, and schedules the delayed
    channel-local-messages notification exactly when the peer is a channel.
    On a message that is not pending-send, or is already failed, it is a
    contract violation. *)
Theorem sendFailed_marks_failure (m : HistoryItem) :
  (has (_flags m) f_sending = true ->
   has (_flags m) f_failed = false ->
   let m' :=
     set_flags m (flag_and_not (flag_or (_flags m) f_failed) f_sending) in
   let log :=
     if isChannel (peer (_history m))
     then [peerUpdatedDelayed ChannelLocalMessages] else [] in
   run sendFailed m = Done (tt, {| this := m'; calls := log |}) /\
   has (_flags m') f_failed = true /\
   has (_flags m') f_sending = false /\
   id m' = id m /\
   (forall g, g <> f_failed -> g <> f_sending ->
      has (_flags m') g = has (_flags m) g) /\
   (In (peerUpdatedDelayed ChannelLocalMessages) log <->
    isChannel (peer (_history m)) = true)) /\
  (has (_flags m) f_sending = false \/ has (_flags m) f_failed = true ->
   run sendFailed m = ContractViolation).
Proof.
  split.
  - intros Hs Hf m' log. subst m' log.
    split; [|split; [|split; [|split; [|split]]]].
    + unfold run. rewrite sendFailed_done by assumption. reflexivity.
    + cbn. rewrite has_flag_and_not_other by discriminate.
      apply has_flag_or_same.
    + cbn. apply has_flag_and_not_same.
    + reflexivity.
    + intros g Hg1 Hg2. cbn.
      rewrite has_flag_and_not_other by assumption.
      now apply has_flag_or_other.
    + destruct (isChannel (peer (_history m))); cbn.
      * split; [reflexivity|]. intros _. now left.
      * split; [contradiction|discriminate].
  - intros H. unfold run. now apply sendFailed_violation.
Qed.

(** C3: along every sequence of reconciliation calls ([setRealId],
    [sendFailed]) started on a message where at most one of pending-send and
    send-failed holds, the same holds of the message after every call that
    returns; and a single call that returns preserves it. *)
Theorem sending_xor_failed_invariant (cs : list ReconcileCall)
    (m : HistoryItem) :
  sending_xor_failed m = true ->
  Forall (fun s => sending_xor_failed s = true)
    (m :: reconcile_states cs {| this := m; calls := [] |}) /\
  (forall c w w', reconcile c w = Done (tt, w') ->
     sending_xor_failed (this w') = true).
Proof.
  intros Hm.
  assert (forall c w w' u, reconcile c w = Done (u, w') ->
            sending_xor_failed (this w') = true) as Step.
  { intros c w w' u R. unfold sending_xor_failed.
    now rewrite (reconcile_clears_sending c w w' u R). }
  split; [|intros c w w'; apply Step].
  constructor; [exact Hm|].
  generalize {| this := m; calls := [] |} as w.
  induction cs as [|c cs IH]; intros w; cbn [reconcile_states].
  - constructor.
  - destruct (reconcile c w) as [[u w']|] eqn:R; [|constructor].
    constructor; [now apply (Step c w w' u)|apply IH].
Qed.

(** C4: once [setRealId] has returned on a Provisional message, pending-send
    is clear, so a second [setRealId] (with any id) and a [sendFailed] are
    both contract violations; the same holds once [sendFailed] has
    returned. *)
Theorem reconciliation_single_shot (m : HistoryItem) :
  (forall newId,
     has (_flags m) f_sending = true ->
     IsClientMsgId (id m) = true ->
     exists w,
       run (setRealId newId) m = Done (tt, w) /\
       has (_flags (this w)) f_sending = false /\
       (forall again, setRealId again w = ContractViolation) /\
       sendFailed w = ContractViolation) /\
  (has (_flags m) f_sending = true ->
   has (_flags m) f_failed = false ->
   exists w,
     run sendFailed m = Done (tt, w) /\
     has (_flags (this w)) f_sending = false /\
     (forall newId, setRealId newId w = ContractViolation) /\
     sendFailed w = ContractViolation).
Proof.
  split.
  - intros newId Hs Hc. eexists. split.
    + unfold run. apply setRealId_done; assumption.
    + assert (has (_flags (set_flags (set_id m newId)
                (flag_and_not (_flags m) f_sending))) f_sending = false) as E
        by (cbn; apply has_flag_and_not_same).
      split; [exact E|split].
      * intros again. apply (reconcile_needs_sending (CallSetRealId again)).
        exact E.
      * apply (reconcile_needs_sending CallSendFailed). exact E.
  - intros Hs Hf. eexists. split.
    + unfold run. apply sendFailed_done; assumption.
    + assert (has (_flags (set_flags m
                (flag_and_not (flag_or (_flags m) f_failed) f_sending)))
                f_sending = false) as E
        by (cbn; apply has_flag_and_not_same).
      split; [exact E|split].
      * intros newId. apply (reconcile_needs_sending (CallSetRealId newId)).
        exact E.
      * apply (reconcile_needs_sending CallSendFailed). exact E.
Qed.

(** ** Read state *)

(** C10: [markMediaRead] returns, and the item it leaves differs from the
    one it was called on in the unread-media flag only: id, conversation,
    date, group id, components, media and text are the same, unread-media is
    clear, and every other flag (in particular pending-send, send-failed,
    mentions-me, outgoing, channel-post and client-side-unread), indeed every
    other bit of the word, is unchanged. *)
Theorem markMediaRead_frame (m : HistoryItem) :
  let m' := set_flags m (flag_and_not (_flags m) f_media_unread) in
  let log :=
    if mentionsMe m
    then [updateChatListEntry; eraseFromUnreadMentions (id m)] else [] in
  run markMediaRead m = Done (tt, {| this := m'; calls := log |}) /\
  id m' = id m /\
  _history m' = _history m /\
  _date m' = _date m /\
  _groupId m' = _groupId m /\
  components m' = components m /\
  _media m' = _media m /\
  _text m' = _text m /\
  has (_flags m') f_media_unread = false /\
  (forall g, g <> f_media_unread -> has (_flags m') g = has (_flags m) g) /\
  (forall i, 0 <= i < 32 -> i <> bit_of f_media_unread ->
     Z.testbit (_flags m') i = Z.testbit (_flags m) i).
Proof.
  intros m' log. subst m' log.
  assert (mentionsMe (set_flags m (flag_and_not (_flags m) f_media_unread))
          = mentionsMe m) as Em.
  { unfold mentionsMe. cbn.
    now rewrite has_flag_and_not_other by discriminate. }
  repeat split.
  - unfold markMediaRead. run_method.
    rewrite Em. destruct (mentionsMe m); reflexivity.
  - cbn. apply has_flag_and_not_same.
  - intros g Hg. cbn. now apply has_flag_and_not_other.
  - intros i Hi Hne. cbn. rewrite testbit_flag_and_not by assumption.
    destruct (Z.eqb_spec i (bit_of f_media_unread)); [contradiction|].
    apply andb_true_r.
Qed.

(** C5: the decision table of [unread].  Self-chat messages are read
    whatever their direction and id.  Otherwise: an outgoing message with a
    server id is read when the read position has passed it, when the peer is
    a bot or a channel that is not a megagroup (and when the conversation has
    a migrated-to successor), and unread in every other case; an outgoing
    message without a server id is unread unless the peer has a migrated-to
    successor; an incoming message with a server id follows the server-side
    read position; an incoming message without one follows the
    client-side-unread flag. *)
Theorem unread_decision_table (m : HistoryItem) :
  let h := _history m in
  let p := peer h in
  (isSelf p = true -> unread m = false) /\
  (isSelf p = false -> out m = true -> IsServerMsgId (id m) = true ->
     (isServerSideUnread h m = false -> unread m = false) /\
     (forall user, asUser p = Some user -> isBot user = true ->
        unread m = false) /\
     (forall channel, asChannel p = Some channel ->
        channel_isMegagroup channel = false -> unread m = false) /\
     unread m =
       negb (migrateTo p) && isServerSideUnread h m
       && negb (read_once_sent p)) /\
  (isSelf p = false -> out m = true -> IsServerMsgId (id m) = false ->
     unread m = negb (migrateTo p)) /\
  (isSelf p = false -> out m = false -> IsServerMsgId (id m) = true ->
     unread m = isServerSideUnread h m) /\
  (isSelf p = false -> out m = false -> IsServerMsgId (id m) = false ->
     unread m = has (_flags m) f_clientside_unread).
Proof.
  intros h p. subst h p.
  unfold unread, read_once_sent, asUser, asChannel, out.
  generalize (has (_flags m) f_out) as outgoing,
    (has (_flags m) f_clientside_unread) as clientside,
    (IsServerMsgId (id m)) as server,
    (isServerSideUnread (_history m) m) as serverUnread.
  destruct (peer (_history m)) as [k myself migrated ? ?]. cbn.
  intros [] clientside [] [];
    destruct myself, migrated, k as [[[] ?]|?|[[] ? ? ? ?]]; cbn;
    repeat split; intros; try reflexivity; try discriminate;
    repeat match goal with
           | H : Some _ = Some _ |- _ => injection H as H; subst
           end; cbn in *; discriminate.
Qed.

(** ** Deletion *)

(** C6: the decision table of [canDelete].  A log entry cannot be deleted,
    nor can a service message whose id is not a server id.  Past these two
    checks: outside channels the message can be deleted unless it is a
    group-migration marker; in a channel the message with id 1 cannot be
    deleted, any other can when the channel grants delete rights, and
    without them only an outgoing content message can, a channel post
    needing publish rights in addition. *)
Theorem canDelete_decision_table (m : HistoryItem) :
  let p := peer (_history m) in
  (isLogEntry m = true -> canDelete m = false) /\
  (IsServerMsgId (id m) = false -> serviceMsg m = true ->
     canDelete m = false) /\
  (isLogEntry m = false ->
   IsServerMsgId (id m) = true \/ serviceMsg m = false ->
     (asChannel p = None -> canDelete m = negb (isGroupMigrate m)) /\
     (forall channel, asChannel p = Some channel ->
        (id m = 1 -> canDelete m = false) /\
        (id m <> 1 -> canDeleteMessages channel = true ->
           canDelete m = true) /\
        (id m <> 1 -> canDeleteMessages channel = false ->
           canDelete m =
             out m && toHistoryMessage m
             && (if isPost m then canPublish channel else true)))).
Proof.
  intros p. subst p. unfold canDelete.
  split; [|split].
  - intros ->. reflexivity.
  - intros -> ->. cbn. now rewrite orb_true_r.
  - intros -> Hs.
    assert (negb (IsServerMsgId (id m)) && serviceMsg m = false) as E.
    { destruct Hs as [->| ->]; [reflexivity|apply andb_false_r]. }
    cbn. rewrite E. split.
    + intros ->. reflexivity.
    + intros channel ->. repeat split.
      * intros ->. reflexivity.
      * intros Hne ->. apply Z.eqb_neq in Hne. now rewrite Hne.
      * intros Hne ->. apply Z.eqb_neq in Hne. rewrite Hne.
        destruct (out m), (toHistoryMessage m), (isPost m); reflexivity.
Qed.

Lemma wrap32_representable (z : Z) :
  int32_min <= z <= int32_max -> wrap32 z = z.
Proof.
  unfold int32_min, int32_max, wrap32. intros Hz.
  rewrite Z.mod_small by lia. lia.
Qed.

(** Times since the epoch are non-negative, and their difference is always
    representable. *)
Lemma sub32_epoch_times (a b : TimeId) :
  0 <= a <= int32_max -> 0 <= b <= int32_max -> sub32 a b = a - b.
Proof.
  intros Ha Hb. unfold sub32. apply wrap32_representable.
  unfold int32_min, int32_max in *. lia.
Qed.

(** C7: [canDeleteForEveryone now] is false whenever the id is provisional
    (negative), the conversation is the self-chat, the message is a channel
    post, or the age [now - date] has reached the revoke limit of the
    conversation kind (the private limit for user peers, the group limit
    otherwise), whatever the two limits are, in particular for all limits
    at or above zero.  The age may be read as the 32-bit subtraction the
    method performs, or as the exact difference whenever that difference is
    representable in 32 bits (as it is for times since the epoch). *)
Theorem canDeleteForEveryone_refuses (g : GlobalConfig) (m : HistoryItem)
    (now : TimeId) :
  let limit :=
    if isUser (peer (_history m))
    then RevokePrivateTimeLimit g else RevokeTimeLimit g in
  id m < 0 \/
  isSelf (peer (_history m)) = true \/
  isPost m = true \/
  limit <= sub32 now (_date m) \/
  (int32_min <= now - _date m <= int32_max /\ limit <= now - _date m) ->
  canDeleteForEveryone g m now = false.
Proof.
  intros limit H.
  assert (id m < 0 \/ isSelf (peer (_history m)) = true \/
          isPost m = true \/ limit <= sub32 now (_date m)) as H'.
  { destruct H as [H|[H|[H|[H|[Hrep H]]]]]; auto.
    right; right; right. unfold sub32.
    now rewrite wrap32_representable. }
  clear H. subst limit. unfold canDeleteForEveryone.
  destruct H' as [Hid|[Hself|[Hpost|Hage]]].
  - apply Z.ltb_lt in Hid. now rewrite Hid.
  - rewrite Hself. cbn. now rewrite orb_true_r.
  - rewrite Hpost. now rewrite orb_true_r.
  - destruct (isSelf (peer (_history m))); [cbn; now rewrite orb_true_r|].
    assert ((if isUser (peer (_history m))
             then sub32 now (_date m) >=? RevokePrivateTimeLimit g
             else sub32 now (_date m) >=? RevokeTimeLimit g) = true) as E.
    { destruct (isUser (peer (_history m))); apply Z.geb_le; exact Hage. }
    rewrite E. cbn. now rewrite orb_true_r.
Qed.

(** ** Classification and notification text *)

(** C8: the classification table of [CheckMessageMedia].  A photo container
    without time-to-live whose photo field is absent or is the empty variant
    is Empty; a web page is Good as a real page, an empty placeholder or a
    pending page, and Unsupported as the not-modified variant.  The other
    rows: a time-to-live on a photo or document gives HasTimeToLive, a
    document follows the photo rows, the three geo kinds are Empty on an
    empty point and Good otherwise, the unsupported variant is Unsupported,
    and everything else is Good. *)
Theorem CheckMessageMedia_classification :
  CheckMessageMedia (MTPDmessageMediaPhoto None None) = Empty /\
  CheckMessageMedia (MTPDmessageMediaPhoto (Some MTPDphotoEmpty) None)
    = Empty /\
  CheckMessageMedia (MTPDmessageMediaPhoto (Some MTPDphoto) None) = Good /\
  (forall photo ttl,
     CheckMessageMedia (MTPDmessageMediaPhoto photo (Some ttl))
       = HasTimeToLive) /\
  CheckMessageMedia (MTPDmessageMediaWebPage MTPDwebPage) = Good /\
  CheckMessageMedia (MTPDmessageMediaWebPage MTPDwebPageEmpty) = Good /\
  CheckMessageMedia (MTPDmessageMediaWebPage MTPDwebPagePending) = Good /\
  CheckMessageMedia (MTPDmessageMediaWebPage MTPDwebPageNotModified)
    = Unsupported /\
  CheckMessageMedia (MTPDmessageMediaDocument None None) = Empty /\
  CheckMessageMedia (MTPDmessageMediaDocument (Some MTPDdocumentEmpty) None)
    = Empty /\
  CheckMessageMedia (MTPDmessageMediaDocument (Some MTPDdocument) None)
    = Good /\
  (forall document ttl,
     CheckMessageMedia (MTPDmessageMediaDocument document (Some ttl))
       = HasTimeToLive) /\
  (forall geo,
     CheckMessageMedia (MTPDmessageMediaGeo geo) = check_geo geo /\
     CheckMessageMedia (MTPDmessageMediaVenue geo) = check_geo geo /\
     CheckMessageMedia (MTPDmessageMediaGeoLive geo) = check_geo geo) /\
  check_geo MTPDgeoPoint = Good /\
  check_geo MTPDgeoPointEmpty = Empty /\
  CheckMessageMedia MTPDmessageMediaEmpty = Good /\
  CheckMessageMedia MTPDmessageMediaContact = Good /\
  (forall game, CheckMessageMedia (MTPDmessageMediaGame game) = Good) /\
  CheckMessageMedia MTPDmessageMediaInvoice = Good /\
  CheckMessageMedia MTPDmessageMediaPoll = Good /\
  CheckMessageMedia MTPDmessageMediaUnsupported = Unsupported /\
  (forall media,
     CheckMessageMedia media = Unsupported <->
     media = MTPDmessageMediaWebPage MTPDwebPageNotModified \/
     media = MTPDmessageMediaUnsupported).
Proof.
  repeat match goal with |- _ /\ _ => split end;
    try reflexivity; try (intros; reflexivity).
  - intros []; repeat split.
  - intros []; reflexivity.
  - intros media. split.
    + destruct media as [| |[]|[]|[]|[[]|] []|[[]|] []|[]|[]| | |]; cbn;
        intros H; try discriminate; auto.
    + intros [-> | ->]; reflexivity.
Qed.

Lemma size_firstn_limit (s : QString) :
  kNotificationTextLimit < size s ->
  size (firstn (Z.to_nat kNotificationTextLimit) s) = kNotificationTextLimit.
Proof.
  unfold size, kNotificationTextLimit. intros H.
  rewrite length_firstn. lia.
Qed.

(** C9: [notificationText] returns the underlying summary unchanged when it
    has at most 255 code units, and otherwise its first 255 code units
    followed by three full stops (258 units in all).  The summary of a
    message without media and with a non-empty body is the body: a body of
    200 units is returned as it is, a body of 300 units is cut to its first
    255 units followed by the ellipsis. *)
Theorem notificationText_truncates (m : HistoryItem) :
  let summary := notification_summary m in
  (size summary <= 255 -> notificationText m = summary) /\
  (255 < size summary ->
     notificationText m = firstn 255 summary ++ qsl_dots /\
     size (notificationText m) = 258) /\
  (_media m = None -> emptyText m = false ->
     summary = toString (_text m) /\
     (size (toString (_text m)) = 200 ->
        notificationText m = toString (_text m)) /\
     (size (toString (_text m)) = 300 ->
        notificationText m = firstn 255 (toString (_text m)) ++ qsl_dots)).
Proof.
  intros summary.
  assert (size summary <= 255 -> notificationText m = summary) as Short.
  { intros H. unfold notificationText. fold summary.
    unfold kNotificationTextLimit. apply Z.leb_le in H. now rewrite H. }
  assert (255 < size summary ->
          notificationText m = firstn 255 summary ++ qsl_dots) as Long.
  { intros H. unfold notificationText. fold summary.
    unfold kNotificationTextLimit. apply Z.leb_gt in H. rewrite H.
    reflexivity. }
  split; [exact Short|split].
  - intros H. split; [now apply Long|].
    rewrite (Long H). unfold size. rewrite length_app.
    pose proof (size_firstn_limit summary H) as F.
    unfold size, kNotificationTextLimit in F.
    change (Z.to_nat 255) with 255%nat in F. cbn [length qsl_dots]. lia.
  - intros Hmedia Htext.
    assert (summary = toString (_text m)) as E.
    { subst summary. unfold notification_summary.
      now rewrite Hmedia, Htext. }
    split; [exact E|]. rewrite <- E. split; intros H.
    + apply Short. lia.
    + apply Long. lia.
Qed.

(** ** Properties of the further methods *)

Lemma reconcile_run_after_done (cs : list ReconcileCall) (w : World) :
  has (_flags (this w)) f_sending = false -> reconcile_run cs w = w.
Proof.
  intros Hs. destruct cs as [|c cs]; cbn [reconcile_run]; [reflexivity|].
  now rewrite reconcile_needs_sending.
Qed.

(** A sequence of reconciliation calls leaves the world it started in, or
    the world its first call returned. *)
Lemma reconcile_run_first (cs : list ReconcileCall) (w : World) :
  reconcile_run cs w = w \/
  exists c rest w', cs = c :: rest /\ reconcile c w = Done (tt, w') /\
                    reconcile_run cs w = w'.
Proof.
  destruct cs as [|c rest]; cbn [reconcile_run]; [now left|].
  destruct (reconcile c w) as [[[] w']|] eqn:R; [|now left].
  right. exists c, rest, w'.
  split; [reflexivity|split; [exact R|]].
  apply reconcile_run_after_done.
  exact (reconcile_clears_sending c w w' tt R).
Qed.

(** Over the whole life of a message (its construction followed by any
    sequence of reconciliation calls) the local-message index is asked to
    unregister the message at most once, and only when the constructor
    registered it; the constructor registers it at most once. *)
Theorem local_index_calls_balanced (history : History) (msgId : MsgId)
    (flags : Flags) (date : TimeId) (rest : HistoryItem)
    (cs : list ReconcileCall) :
  let log := lifecycle_calls history msgId flags date rest cs in
  (length (filter is_unregister log) <= length (filter is_register log))%nat
  /\ (length (filter is_register log) <= 1)%nat
  /\ (length (filter is_register log) = 1%nat <->
       IsClientMsgId msgId = true).
Proof.
  intros log. subst log. unfold lifecycle_calls, HistoryItem_new.
  cbn [fst snd]. rewrite !filter_app, !length_app.
  set (item := {| id := msgId; _history := history; _flags := flags;
                  _date := date; _groupId := _groupId rest;
                  components := components rest; _media := _media rest;
                  _text := _text rest; isLogEntry := isLogEntry rest;
                  serviceMsg := serviceMsg rest;
                  toHistoryMessage := toHistoryMessage rest;
                  isGroupMigrate := isGroupMigrate rest |}).
  assert (forall l, filter is_register (map method_call l) = []) as NoReg.
  { induction l as [|c l IH]; [reflexivity|exact IH]. }
  rewrite NoReg. cbn [length]. rewrite !Nat.add_0_r.
  assert (length (filter is_unregister
            (map method_call
               (calls (reconcile_run cs {| this := item; calls := [] |}))))
          <= (if IsClientMsgId msgId then 1 else 0))%nat as Unreg.
  { destruct (reconcile_run_first cs {| this := item; calls := [] |})
      as [->|(c & rest' & w' & _ & R & ->)]; [cbn; lia|].
    destruct c as [newId|]; cbn [reconcile] in R.
    - destruct (has flags f_sending) eqn:Hs;
        [|rewrite setRealId_violation in R by (now left); discriminate].
      destruct (IsClientMsgId msgId) eqn:Hc;
        [|rewrite setRealId_violation in R by (now right); discriminate].
      rewrite setRealId_done in R by assumption.
      injection R as R. subst w'. cbn [calls app]. unfold setRealId_calls.
      generalize (match inlineReplyMarkup item with
                  | Some markup => inlineKeyboard markup
                  | None => false
                  end) as keyboard.
      destruct (IsServerMsgId newId); intros []; cbn; lia.
    - destruct (has flags f_sending) eqn:Hs;
        [|rewrite sendFailed_violation in R by (now left); discriminate].
      destruct (has flags f_failed) eqn:Hf;
        [rewrite sendFailed_violation in R by (now right); discriminate|].
      rewrite sendFailed_done in R by assumption.
      injection R as R. subst w'. cbn [calls app this _history item].
      destruct (isChannel (peer history)); cbn; lia. }
  destruct (IsClientMsgId msgId); cbn in *; repeat split; try lia;
    discriminate.
Qed.

(** [setGroupId] is single shot: it returns exactly on a message without a
    group, touching the group id alone; once it has set a non-empty group
    id every further call is a contract violation, so the group id never
    changes again.  Setting the empty id does not use the shot up. *)
Theorem setGroupId_once (groupId : MessageGroupId) (m : HistoryItem) :
  (_groupId m = 0 ->
   setGroupId groupId m
   = Done (set_groupId m groupId, [groups_registerMessage]) /\
   id (set_groupId m groupId) = id m /\
   _flags (set_groupId m groupId) = _flags m /\
   (groupId <> 0 ->
    forall again,
      setGroupId again (set_groupId m groupId) = ContractViolation) /\
   (groupId = 0 ->
    forall again,
      setGroupId again (set_groupId m groupId)
      = Done (set_groupId m again, [groups_registerMessage]))) /\
  (_groupId m <> 0 -> setGroupId groupId m = ContractViolation).
Proof.
  unfold setGroupId, groupId_set. split.
  - intros E. rewrite E. cbn. repeat split.
    + intros Hne again. apply Z.eqb_neq in Hne. now rewrite Hne.
    + intros -> again. reflexivity.
  - intros Hne. apply Z.eqb_neq in Hne. now rewrite Hne.
Qed.

Lemma flag_and_not_idempotent (fl : Flags) (f : MessageFlag) :
  flag_and_not (flag_and_not fl f) f = flag_and_not fl f.
Proof.
  apply Z.bits_inj'. intros i Hi.
  unfold flag_and_not, lnot32.
  rewrite !Z.land_spec, !Z.lxor_spec, testbit_mask.
  destruct (Z.testbit fl i), (i =? bit_of f), (Z.testbit (Z.ones 32) i);
    reflexivity.
Qed.

Lemma markMediaRead_run (m : HistoryItem) :
  run markMediaRead m
  = Done (tt,
      {| this := set_flags m (flag_and_not (_flags m) f_media_unread);
         calls := if mentionsMe m
                  then [updateChatListEntry; eraseFromUnreadMentions (id m)]
                  else [] |}).
Proof.
  unfold markMediaRead. run_method.
  replace (mentionsMe
             (set_flags m (flag_and_not (_flags m) f_media_unread)))
    with (mentionsMe m).
  - destruct (mentionsMe m); reflexivity.
  - unfold mentionsMe. cbn.
    now rewrite has_flag_and_not_other by discriminate.
Qed.

(** After [markMediaRead] the message has no unread media at any time and
    under any configuration, is no unread mention, mentions the user
    exactly when it did before, and a second [markMediaRead] leaves the
    item as the first one left it. *)
Theorem markMediaRead_settles (m : HistoryItem) :
  exists m' log,
    run markMediaRead m = Done (tt, {| this := m'; calls := log |}) /\
    (forall g now, hasUnreadMediaFlag g now m' = false) /\
    isUnreadMention m' = false /\
    mentionsMe m' = mentionsMe m /\
    exists log', run markMediaRead m'
                 = Done (tt, {| this := m'; calls := log' |}).
Proof.
  exists (set_flags m (flag_and_not (_flags m) f_media_unread)).
  eexists. split; [apply markMediaRead_run|].
  assert (has (flag_and_not (_flags m) f_media_unread) f_media_unread
          = false) as Hc by apply has_flag_and_not_same.
  split; [|split; [|split]].
  - intros g now. unfold hasUnreadMediaFlag. cbn. rewrite Hc.
    destruct (isChannel (peer (_history m)));
      [destruct (sub32 now (_date m) >=? ChannelsReadMediaPeriod g)|];
      reflexivity.
  - unfold isUnreadMention. cbn. rewrite Hc. apply andb_false_r.
  - unfold mentionsMe. cbn.
    now rewrite has_flag_and_not_other by discriminate.
  - eexists. rewrite markMediaRead_run. cbn [_flags set_flags].
    rewrite flag_and_not_idempotent. reflexivity.
Qed.

(** In a channel the unread-media state expires: once [hasUnreadMediaFlag]
    is false at some time it is false at every later time (the ages being
    representable); outside channels it is the bare flag at all times. *)
Theorem hasUnreadMediaFlag_expires (g : GlobalConfig) (m : HistoryItem)
    (now later : TimeId) :
  int32_min <= now - _date m <= int32_max ->
  int32_min <= later - _date m <= int32_max ->
  now <= later ->
  (hasUnreadMediaFlag g now m = false ->
   hasUnreadMediaFlag g later m = false) /\
  (isChannel (peer (_history m)) = false ->
   hasUnreadMediaFlag g now m = has (_flags m) f_media_unread) /\
  (isChannel (peer (_history m)) = true ->
   ChannelsReadMediaPeriod g <= now - _date m ->
   hasUnreadMediaFlag g now m = false).
Proof.
  intros Hn Hl Hle. unfold hasUnreadMediaFlag, sub32.
  rewrite !wrap32_representable by assumption.
  destruct (isChannel (peer (_history m))).
  - split; [|split; [discriminate|]].
    + destruct (Z.geb_spec (now - _date m) (ChannelsReadMediaPeriod g)),
               (Z.geb_spec (later - _date m) (ChannelsReadMediaPeriod g));
        try reflexivity; try lia. trivial.
    + intros _ Hage.
      destruct (Z.geb_spec (now - _date m) (ChannelsReadMediaPeriod g));
        [reflexivity|lia].
  - split; [trivial|split; [reflexivity|discriminate]].
Qed.

(** [markClientSideAsRead] clears the client-side-unread flag alone; on a
    message without a server id it makes an incoming message read and
    leaves the read state of an outgoing one as it was. *)
Theorem markClientSideAsRead_reads (m : HistoryItem) :
  let m' := set_flags m (flag_and_not (_flags m) f_clientside_unread) in
  run markClientSideAsRead m = Done (tt, {| this := m'; calls := [] |}) /\
  has (_flags m') f_clientside_unread = false /\
  (forall f, f <> f_clientside_unread ->
     has (_flags m') f = has (_flags m) f) /\
  (IsServerMsgId (id m) = false -> unread m' = out m && unread m).
Proof.
  intros m'. subst m'.
  split; [reflexivity|split; [|split]].
  - cbn. apply has_flag_and_not_same.
  - intros f Hf. cbn. now apply has_flag_and_not_other.
  - intros Hs. unfold unread, out. cbn. rewrite Hs.
    rewrite has_flag_and_not_same.
    rewrite has_flag_and_not_other by discriminate.
    destruct (isSelf (peer (_history m))), (has (_flags m) f_out),
      (migrateTo (peer (_history m))); reflexivity.
Qed.

(** [canDeleteForEveryone] holds exactly when the id is not negative, the
    conversation is not the self-chat, the message is no channel post and
    is younger than the limit of its conversation kind, and moreover: with
    a user, the user is no bot (or is a support account) and the message is
    outgoing or revoking incoming messages is switched on; in a basic group,
    the message is a content message whose media (if any) allows revoking,
    and it is outgoing or the actor created the group or may delete
    messages.  In a channel it never holds. *)
Theorem canDeleteForEveryone_exactly (g : GlobalConfig) (m : HistoryItem)
    (now : TimeId) :
  let p := peer (_history m) in
  canDeleteForEveryone g m now = true <->
  0 <= id m /\ isSelf p = false /\ isPost m = false /\
  sub32 now (_date m)
    < (if isUser p then RevokePrivateTimeLimit g else RevokeTimeLimit g) /\
  match kind p with
  | UserPeer user =>
      (isBot user = false \/ isSupport user = true) /\
      (out m = true \/ RevokePrivateInbox g = true)
  | ChatPeer chat =>
      toHistoryMessage m = true /\
      (forall media, _media m = Some media -> allowsRevoke media = true) /\
      (out m = true \/ amCreator chat = true \/
       adminRights_delete_messages chat = true)
  | ChannelPeer _ => False
  end.
Proof using bit_of.
  clear IsClientMsgId IsServerMsgId isServerSideUnread layout.
  intros p. subst p.
  unfold canDeleteForEveryone, isUser, isChannel, asUser, asChat.
  destruct (Z.ltb_spec (id m) 0) as [Hid|Hid];
    [cbn; split; [discriminate|intros [? _]; lia]|].
  destruct (isSelf (peer (_history m)));
    [cbn; split; [discriminate|intros (_ & ? & _); discriminate]|].
  destruct (isPost m);
    [rewrite !orb_true_r; split;
       [discriminate|intros (_ & _ & ? & _); discriminate]|].
  cbn [orb]. rewrite !orb_false_r.
  destruct (kind (peer (_history m))) as [[bot support]|[creator rights]|ch];
    cbn [isBot isSupport amCreator adminRights_delete_messages].
  - destruct (Z.geb_spec (sub32 now (_date m)) (RevokePrivateTimeLimit g))
      as [Hold|Hyoung];
      [split; [discriminate|intros (_ & _ & _ & ? & _); lia]|].
    destruct bot, support, (out m), (RevokePrivateInbox g); cbn;
      intuition (discriminate || lia).
  - destruct (Z.geb_spec (sub32 now (_date m)) (RevokeTimeLimit g))
      as [Hold|Hyoung];
      [split; [discriminate|intros (_ & _ & _ & ? & _); lia]|].
    destruct (toHistoryMessage m); cbn;
      [|split; [discriminate|intros (_ & _ & _ & _ & ? & _); discriminate]].
    destruct (_media m) as [media|]; cbn.
    + destruct (allowsRevoke media) eqn:Hrev; cbn.
      * destruct (out m), creator, rights; cbn;
          (split; [intros H; try discriminate H; repeat split; auto; try lia;
                   intros ? [= <-]; exact Hrev
                  |intros (_ & _ & _ & _ & _ & _ & [H|[H|H]]);
                   try discriminate H; reflexivity]).
      * split; [discriminate|].
        intros (_ & _ & _ & _ & _ & H & _).
        specialize (H media eq_refl). congruence.
    + destruct (out m), creator, rights; cbn;
        (split; [intros H; try discriminate H; repeat split; auto; try lia;
                 intros ? [=]
                |intros (_ & _ & _ & _ & _ & _ & [H|[H|H]]);
                 try discriminate H; reflexivity]).
  - destruct (Z.geb_spec (sub32 now (_date m)) (RevokeTimeLimit g))
      as [Hold|Hyoung];
      (split; [discriminate|intros (_ & _ & _ & _ & [])]).
Qed.

(** Stopping a poll is offered exactly for a message with a non-negative id
    that is neither sent via a bot nor forwarded, and that is in the
    self-chat, or is a channel post in a channel granting edit rights, or
    is outgoing (in a channel: with publish rights for a post and write
    rights otherwise).  Pinning is offered only for a content message with
    a non-negative id, and then follows the peer's pin right. *)
Theorem canStopPoll_exactly (m : HistoryItem) :
  let p := peer (_history m) in
  (canStopPoll m = true <->
   0 <= id m /\ Via (components m) = false /\
   Forwarded (components m) = None /\
   (isSelf p = true \/
    match asChannel p with
    | Some channel =>
        (isPost m = true /\ canEditMessages channel = true) \/
        (out m = true /\
         (if isPost m then canPublish channel else canWrite channel) = true)
    | None => out m = true
    end)) /\
  (canPin m = true <->
   0 <= id m /\ toHistoryMessage m = true /\ canPinMessages p = true).
Proof.
  intros p. subst p. split.
  - unfold canStopPoll.
    destruct (Z.ltb_spec (id m) 0) as [Hid|Hid];
      [cbn; split; [discriminate|intros [? _]; lia]|].
    destruct (Via (components m));
      [cbn; split; [discriminate|intros (_ & ? & _); discriminate]|].
    destruct (Forwarded (components m));
      [cbn; split; [discriminate|intros (_ & _ & ? & _); discriminate]|].
    cbn [orb].
    destruct (isSelf (peer (_history m)));
      [split; [intros _; repeat split; auto|reflexivity]|].
    destruct (asChannel (peer (_history m))) as [channel|].
    + destruct (isPost m), (canEditMessages channel), (out m),
        (canPublish channel), (canWrite channel); cbn;
        intuition (discriminate || lia).
    + destruct (out m); intuition (discriminate || lia).
  - unfold canPin.
    destruct (Z.ltb_spec (id m) 0) as [Hid|Hid];
      [cbn; split; [discriminate|intros [? _]; lia]|].
    destruct (toHistoryMessage m); cbn;
      [|split; [discriminate|intros (_ & ? & _); discriminate]].
    destruct (canPinMessages (peer (_history m)));
      intuition (discriminate || lia).
Qed.

(** A message with an inline reply markup never defines a reply keyboard.
    [replyKeyboardFlags] is a contract violation exactly when the message
    defines no reply keyboard; when it returns the flags of a markup
    component, that markup is the message's and is not inline, and it
    returns the bare flag only when no component exists. *)
Theorem replyKeyboardFlags_contract (m : HistoryItem) :
  (inlineReplyMarkup m <> None -> definesReplyKeyboard m = false) /\
  (definesReplyKeyboard m = false ->
   run replyKeyboardFlags m = ContractViolation) /\
  (definesReplyKeyboard m = true ->
   exists fl,
     run replyKeyboardFlags m = Done (fl, {| this := m; calls := [] |}) /\
     (forall markup, fl = flags_of_markup markup ->
        ReplyMarkup (components m) = Some markup /\
        markup_inline markup = false) /\
     (fl = f_zero ->
        ReplyMarkup (components m) = None /\
        has (_flags m) f_reply_markup = true)).
Proof.
  unfold inlineReplyMarkup, definesReplyKeyboard, replyKeyboardFlags.
  run_method. unfold definesReplyKeyboard.
  destruct (ReplyMarkup (components m)) as [[inline keyboard]|]; cbn.
  - destruct inline; cbn.
    + repeat split; try reflexivity; discriminate.
    + split; [intros H; now contradiction H|]. split; [discriminate|].
      intros _. eexists. split; [reflexivity|]. split.
      * intros markup [= <-]. now split.
      * discriminate.
  - split; [intros H; now contradiction H|].
    destruct (has (_flags m) f_reply_markup); cbn.
    + split; [discriminate|]. intros _. eexists. split; [reflexivity|].
      split; [discriminate|]. intros _. now split.
    + split; [reflexivity|discriminate].
Qed.


(** What [Create] builds, by payload: an ordinary message exactly for a
    message without media or with media classified Good, and for a service
    payload carrying a phone call; a time-to-live photo or document always
    gives a service message built from the payload, whatever its body; an
    empty payload gives the empty notice with date 0; and a web page never
    gives a service message. *)
Theorem Create_dispatch (data : MTPDmessage) :
  (Create (MTPmessage data) = makeMessage_data data <->
   vmedia data = None \/
   exists media, vmedia data = Some media /\
                 CheckMessageMedia media = Good) /\
  (forall photo document ttl,
     vmedia data = Some (MTPDmessageMediaPhoto photo (Some ttl)) \/
     vmedia data = Some (MTPDmessageMediaDocument document (Some ttl)) ->
     Create (MTPmessage data) = makeServiceMessage_data data) /\
  (forall page,
     vmedia data = Some (MTPDmessageMediaWebPage page) ->
     Create (MTPmessage data) <> makeServiceMessage_data data /\
     forall notice_id notice_date args,
       Create (MTPmessage data)
       <> makeServiceMessage_empty notice_id notice_date args) /\
  (forall service,
     Create (MTPmessageService service) = makeMessage_service service <->
     vaction service = MTPDmessageActionPhoneCall) /\
  (forall emptyId,
     Create (MTPmessageEmpty emptyId)
     = makeServiceMessage_empty emptyId 0 None).
Proof.
  split; [|split; [|split; [|split]]].
  - unfold Create. destruct (vmedia data) as [media|].
    + destruct (CheckMessageMedia media) eqn:C;
        unfold CreateUnsupportedMessage;
        (split; [intros H; try discriminate H; right; now exists media
                |intros [H|(? & [= <-] & H)];
                 try discriminate H; try congruence; reflexivity]).
    + split; [now left|reflexivity].
  - intros photo document ttl [H|H]; unfold Create; rewrite H; reflexivity.
  - intros page H. unfold Create. rewrite H.
    destruct page; cbn; unfold CreateUnsupportedMessage;
      split; try discriminate; intros; discriminate.
  - intros service. unfold Create.
    destruct (vaction service); split; try discriminate; reflexivity.
  - reflexivity.
Qed.

(** The chat-list text cache.  Drawing into an empty rectangle does nothing.
    Otherwise the cache belongs to the item afterwards, and the text is set
    exactly when the cache belonged to another item or to none: a second
    draw of the same item sets no text, even a changed one, until
    [invalidateChatListEntry] releases the cache, after which the next draw
    sets the current text.  Invalidating one item leaves a cache held by
    another item alone. *)
Theorem dialog_text_cache (self : ItemPtr) (text : QString) (fontHeight : Z)
    (r : QRect) (active selected : bool) (cacheFor : option ItemPtr) :
  let drawn := drawInDialog self text fontHeight r active selected cacheFor in
  (QRect_isEmpty r = true -> drawn = (cacheFor, [])) /\
  (QRect_isEmpty r = false ->
   fst drawn = Some self /\
   (In (cache_setText text) (snd drawn) <-> cacheFor <> Some self) /\
   (forall changed main,
      filter is_setText
        (snd (drawInDialog self changed fontHeight r active selected
                (fst drawn))) = [] /\
      filter is_setText
        (snd (drawInDialog self changed fontHeight r active selected
                (fst (invalidateChatListEntry self main (fst drawn)))))
      = [cache_setText changed])) /\
  (forall other main,
     other <> self ->
     fst (invalidateChatListEntry self main (Some other)) = Some other).
Proof using Type.
  clear bit_of IsClientMsgId IsServerMsgId isServerSideUnread layout.
  intros drawn. subst drawn. unfold drawInDialog, invalidateChatListEntry.
  split; [|split].
  - intros ->. reflexivity.
  - intros ->. cbn [fst snd].
    assert (ItemPtr_differs (Some self) self = false) as Same
      by (cbn; now rewrite Nat.eqb_refl).
    destruct (ItemPtr_differs cacheFor self) eqn:D; cbn [fst snd].
    + split; [reflexivity|]. split.
      * split; [|intros _; now left].
        intros _ E. rewrite E, Same in D. discriminate.
      * intros changed main. rewrite Same. cbn. split; reflexivity.
    + assert (cacheFor = Some self) as ->.
      { destruct cacheFor as [other|]; [|discriminate]. cbn in D.
        apply negb_false_iff, Nat.eqb_eq in D. now subst. }
      split; [reflexivity|]. split.
      * split; [|intros E; now contradiction E].
        cbn. intuition discriminate.
      * intros changed main. rewrite Same. cbn. split; reflexivity.
  - intros other main Hne. cbn.
    destruct (Nat.eqb_spec other self); [contradiction|reflexivity].
Qed.

(** The permission predicates read the flag word through the outgoing and
    channel-post flags only. *)
Lemma permissions_read_two_flags (m : HistoryItem) (fl : Flags) :
  has fl f_out = has (_flags m) f_out ->
  has fl f_post = has (_flags m) f_post ->
  canDelete (set_flags m fl) = canDelete m /\
  (forall g now,
     canDeleteForEveryone g (set_flags m fl) now
     = canDeleteForEveryone g m now) /\
  canPin (set_flags m fl) = canPin m /\
  canStopPoll (set_flags m fl) = canStopPoll m /\
  needCheck (set_flags m fl) = needCheck m.
Proof.
  intros Ho Hp.
  unfold canDelete, canDeleteForEveryone, canPin, canStopPoll, needCheck,
    out, isPost. cbn. rewrite Ho, Hp. repeat split.
Qed.

(** Marking a send as failed, marking the media as read and marking the
    message as read on the client side change no permission: whenever one
    of the three methods returns, [canDelete], [canDeleteForEveryone] (at
    every time and configuration), [canPin], [canStopPoll] and [needCheck]
    answer on the resulting item what they answered before. *)
Theorem flag_methods_keep_permissions (m : HistoryItem) :
  forall method,
    method = sendFailed \/ method = markMediaRead \/
    method = markClientSideAsRead ->
  forall w,
    run method m = Done (tt, w) ->
    canDelete (this w) = canDelete m /\
    (forall g now,
       canDeleteForEveryone g (this w) now = canDeleteForEveryone g m now) /\
    canPin (this w) = canPin m /\
    canStopPoll (this w) = canStopPoll m /\
    needCheck (this w) = needCheck m.
Proof.
  intros method [->|[->| ->]] w R.
  - unfold run in R.
    destruct (has (_flags m) f_sending) eqn:Hs;
      [|rewrite sendFailed_violation in R by (now left); discriminate].
    destruct (has (_flags m) f_failed) eqn:Hf;
      [rewrite sendFailed_violation in R by (now right); discriminate|].
    rewrite sendFailed_done in R by assumption.
    injection R as R. subst w. cbn [this].
    apply permissions_read_two_flags;
      rewrite has_flag_and_not_other by discriminate;
      apply has_flag_or_other; discriminate.
  - rewrite markMediaRead_run in R. injection R as R. subst w. cbn [this].
    apply permissions_read_two_flags;
      apply has_flag_and_not_other; discriminate.
  - injection R as R. subst w. cbn [this].
    apply permissions_read_two_flags;
      apply has_flag_and_not_other; discriminate.
Qed.

End Item.

(** ** The methods on sample messages *)

Lemma setRealId_confirms_witness :
  run (setRealId sample_bit_of sample_IsClientMsgId sample_IsServerMsgId 9001)
    provisional_minus5
  = Done (tt,
      {| this := message_in plain_user 9001 (sample_mask f_out)
                   1500000000 [104; 105];
         calls := [unregisterLocalMessage; notifyItemIdChange (-5);
                   requestItemRepaint] |}).
Proof.
  exact (proj1 (setRealId_confirms sample_bit_of sample_IsClientMsgId
                  sample_IsServerMsgId eq_refl provisional_minus5 9001
                  eq_refl eq_refl)).
Defined.

Lemma sendFailed_marks_failure_witness :
  run (sendFailed sample_bit_of) provisional_minus17
  = Done (tt,
      {| this := message_in broadcast_channel (-17) (sample_mask f_failed)
                   1500000000 [104; 105];
         calls := [peerUpdatedDelayed ChannelLocalMessages] |}).
Proof.
  exact (proj1 (proj1 (sendFailed_marks_failure sample_bit_of eq_refl
                         provisional_minus17) eq_refl eq_refl)).
Defined.

Lemma sending_xor_failed_invariant_witness :
  Forall (fun s => sending_xor_failed sample_bit_of s = true)
    (provisional_minus5
     :: reconcile_states sample_bit_of sample_IsClientMsgId
          sample_IsServerMsgId [CallSetRealId 9001; CallSendFailed]
          {| this := provisional_minus5; calls := [] |}).
Proof.
  exact (proj1 (sending_xor_failed_invariant sample_bit_of
                  sample_IsClientMsgId sample_IsServerMsgId eq_refl
                  [CallSetRealId 9001; CallSendFailed] provisional_minus5
                  eq_refl)).
Defined.

Lemma reconciliation_single_shot_witness :
  exists w,
    run (setRealId sample_bit_of sample_IsClientMsgId sample_IsServerMsgId
           9001) provisional_minus5 = Done (tt, w) /\
    has sample_bit_of (_flags (this w)) f_sending = false /\
    (forall again,
       setRealId sample_bit_of sample_IsClientMsgId sample_IsServerMsgId
         again w = ContractViolation) /\
    sendFailed sample_bit_of w = ContractViolation.
Proof.
  exact (proj1 (reconciliation_single_shot sample_bit_of
                  sample_IsClientMsgId sample_IsServerMsgId eq_refl
                  provisional_minus5) 9001 eq_refl eq_refl).
Defined.

Lemma markMediaRead_frame_witness :
  run (markMediaRead sample_bit_of) unread_mention
  = Done (tt,
      {| this := message_in plain_user 9002 (sample_mask f_mentioned)
                   1500000000 [104; 105];
         calls := [updateChatListEntry; eraseFromUnreadMentions 9002] |}).
Proof.
  exact (proj1 (markMediaRead_frame sample_bit_of eq_refl unread_mention)).
Defined.

Lemma canDeleteForEveryone_refuses_witness :
  canDeleteForEveryone sample_bit_of sample_config
    (message_in plain_user 9001 (sample_mask f_out) 1500000000 [104; 105])
    (1500000000 + 172800) = false.
Proof.
  apply canDeleteForEveryone_refuses.
  right; right; right; right.
  unfold int32_min, int32_max. cbn. lia.
Defined.

(** One second before the limit the same message can still be revoked. *)
Example canDeleteForEveryone_just_in_time :
  canDeleteForEveryone sample_bit_of sample_config
    (message_in plain_user 9001 (sample_mask f_out) 1500000000 [104; 105])
    (1500000000 + 172799) = true.
Proof. reflexivity. Qed.

(** Confirming and then failing the same message: the confirmation returns,
    the failure call after it is a contract violation and ends the
    sequence. *)
Example reconcile_states_confirm_then_fail :
  reconcile_states sample_bit_of sample_IsClientMsgId sample_IsServerMsgId
    [CallSetRealId 9001; CallSendFailed]
    {| this := provisional_minus5; calls := [] |}
  = [message_in plain_user 9001 (sample_mask f_out) 1500000000 [104; 105]].
Proof. reflexivity. Qed.

Example setRealId_twice_violation :
  bind (setRealId sample_bit_of sample_IsClientMsgId sample_IsServerMsgId 9001)
       (fun _ => setRealId sample_bit_of sample_IsClientMsgId
                   sample_IsServerMsgId 9002)
       {| this := provisional_minus5; calls := [] |}
  = ContractViolation.
Proof. reflexivity. Qed.

Example sendFailed_on_confirmed_violation :
  run (sendFailed sample_bit_of)
    (message_in plain_user 9001 (sample_mask f_out) 1500000000 [104; 105])
  = ContractViolation.
Proof. reflexivity. Qed.

Example unread_outgoing_provisional :
  unread sample_bit_of sample_IsServerMsgId sample_isServerSideUnread
    provisional_minus5 = true.
Proof. reflexivity. Qed.

Example unread_outgoing_in_broadcast_channel :
  unread sample_bit_of sample_IsServerMsgId sample_isServerSideUnread
    (message_in broadcast_channel 9001 (sample_mask f_out) 1500000000 [])
  = false.
Proof. reflexivity. Qed.

Example canDelete_channel_creation_marker :
  canDelete sample_bit_of sample_IsServerMsgId
    (message_in broadcast_channel 1 (sample_mask f_out) 1500000000 [])
  = false.
Proof. reflexivity. Qed.

Example canDelete_own_channel_post :
  canDelete sample_bit_of sample_IsServerMsgId
    (message_in broadcast_channel 7
       (sample_mask f_out + sample_mask f_post) 1500000000 [])
  = true.
Proof. reflexivity. Qed.

Example notificationText_300 :
  notificationText (message_in plain_user 9001 0 1500000000 (repeat 97 300))
  = repeat 97 255 ++ [46; 46; 46].
Proof. reflexivity. Qed.

Example notificationText_200 :
  notificationText (message_in plain_user 9001 0 1500000000 (repeat 97 200))
  = repeat 97 200.
Proof. reflexivity. Qed.

(** ** The formatting helpers *)

Lemma unit_of_ascii_inj a b : unit_of_ascii a = unit_of_ascii b -> a = b.
Proof.
  unfold unit_of_ascii. intros H. apply N2Z.inj in H.
  rewrite <- (Ascii.ascii_N_embedding a), <- (Ascii.ascii_N_embedding b).
  now rewrite H.
Qed.

Lemma qstr_inj s t : qstr s = qstr t -> s = t.
Proof.
  unfold qstr. intros H.
  rewrite <- (String.string_of_list_ascii_of_string s),
          <- (String.string_of_list_ascii_of_string t).
  f_equal. revert H.
  generalize (String.list_ascii_of_string s) as l,
             (String.list_ascii_of_string t) as r.
  induction l as [|a l IH]; intros [|b r]; cbn; intros H;
    try discriminate; [reflexivity|].
  injection H as Hab Hlr. f_equal; [now apply unit_of_ascii_inj|now apply IH].
Qed.

Lemma number_inj a b : number a = number b -> a = b.
Proof.
  unfold number. intros H. apply qstr_inj in H.
  apply DecimalZ.to_int_inj.
  assert (Some (Z.to_int a) = Some (Z.to_int b)) as E.
  { rewrite <- !DecimalString.NilEmpty.isi. now rewrite H. }
  now injection E.
Qed.

Lemma number_nonempty z : number z <> [].
Proof.
  intros H. assert (number z = number z) as _ by reflexivity.
  unfold number, qstr in H. apply map_eq_nil in H.
  destruct (Z.to_int z) as [d|d] eqn:E; cbn in H.
  - destruct d; try discriminate.
    destruct z; cbn in E; try discriminate.
    + injection E as E. now apply DecimalPos.Unsigned.to_uint_nonnil in E.
  - discriminate.
Qed.

Lemma number_digit t : 0 <= t <= 9 -> number t = [48 + t].
Proof.
  intros H.
  assert (exists n, (n < 10)%nat /\ t = Z.of_nat n) as (n & L & ->)
    by (exists (Z.to_nat t); lia).
  clear H. do 10 (destruct n as [|n]; [reflexivity|]). lia.
Qed.

Lemma padded_two_digits x :
  0 <= x < 60 -> padded x = [48 + x / 10; 48 + x mod 10].
Proof.
  intros H.
  assert (exists n, (n < 60)%nat /\ x = Z.of_nat n) as (n & L & ->)
    by (exists (Z.to_nat x); lia).
  clear H. do 60 (destruct n as [|n]; [reflexivity|]). lia.
Qed.

Lemma app_same_length_head {A} (x y a b : list A) :
  length x = length y -> x ++ a = y ++ b -> x = y /\ a = b.
Proof.
  revert y. induction x as [|u x IH]; intros [|v y]; cbn; intros L E;
    try discriminate.
  - now split.
  - injection E as -> E. injection L as L.
    destruct (IH y L E) as [-> ->]. now split.
Qed.

Lemma app_same_length_tail {A} (x y a b : list A) :
  length a = length b -> x ++ a = y ++ b -> x = y /\ a = b.
Proof.
  intros L E. apply (f_equal (@rev A)) in E. rewrite !rev_app_distr in E.
  apply app_same_length_head in E; [|now rewrite !length_rev].
  destruct E as [Ea Ex]. split.
  - rewrite <- (rev_involutive x), <- (rev_involutive y). now f_equal.
  - rewrite <- (rev_involutive a), <- (rev_involutive b). now f_equal.
Qed.

Lemma cons_eq_inv {A} (a b : A) (l r : list A) :
  a :: l = b :: r -> a = b /\ l = r.
Proof. intros H. now injection H. Qed.

Lemma formatDurationText_shape d :
  0 <= d ->
  formatDurationText d =
  (if d / 3600 =? 0 then [] else number (d / 3600) ++ [58])
  ++ [48 + (d mod 3600 / 60) / 10; 48 + (d mod 3600 / 60) mod 10; 58;
      48 + (d mod 60) / 10; 48 + (d mod 60) mod 10].
Proof.
  intros H. unfold formatDurationText.
  rewrite (Z.quot_div_nonneg d 3600), (Z.rem_mod_nonneg d 3600),
    (Z.rem_mod_nonneg d 60) by lia.
  assert (0 <= d mod 3600 < 3600) as Hm by (apply Z.mod_pos_bound; lia).
  rewrite (Z.quot_div_nonneg (d mod 3600) 60) by lia.
  assert (0 <= d mod 3600 / 60 < 60) as Hmin.
  { split; [apply Z.div_pos; lia|apply Z.div_lt_upper_bound; lia]. }
  assert (0 <= d mod 60 < 60) as Hsec by (apply Z.mod_pos_bound; lia).
  f_equal.
  change ((if d mod 3600 / 60 >=? 10 then [] else [48])
          ++ number (d mod 3600 / 60) ++ [58]
          ++ (if d mod 60 >=? 10 then [] else [48]) ++ number (d mod 60))
    with ((if d mod 3600 / 60 >=? 10 then [] else [48])
          ++ number (d mod 3600 / 60) ++ [58] ++ padded (d mod 60)).
  rewrite app_assoc.
  change ((if d mod 3600 / 60 >=? 10 then [] else [48])
          ++ number (d mod 3600 / 60)) with (padded (d mod 3600 / 60)).
  rewrite !padded_two_digits by assumption. reflexivity.
Qed.



(** Two non-negative durations with the same text are the same duration. *)
Theorem formatDurationText_injective a b :
  0 <= a -> 0 <= b ->
  formatDurationText a = formatDurationText b -> a = b.
Proof.
  intros Ha Hb E.
  rewrite (formatDurationText_shape a Ha), (formatDurationText_shape b Hb) in E.
  apply app_same_length_tail in E; [|reflexivity].
  destruct E as [Eh Et].
  apply cons_eq_inv in Et as [Em1 Et]. apply cons_eq_inv in Et as [Em2 Et].
  apply cons_eq_inv in Et as [_ Et]. apply cons_eq_inv in Et as [Es1 Et].
  apply cons_eq_inv in Et as [Es2 _].
  assert (a mod 3600 / 60 = b mod 3600 / 60) as Em.
  { pose proof (Z.div_mod (a mod 3600 / 60) 10 ltac:(lia)).
    pose proof (Z.div_mod (b mod 3600 / 60) 10 ltac:(lia)). lia. }
  assert (a mod 60 = b mod 60) as Es.
  { pose proof (Z.div_mod (a mod 60) 10 ltac:(lia)).
    pose proof (Z.div_mod (b mod 60) 10 ltac:(lia)). lia. }
  assert (a / 3600 = b / 3600) as Ehours.
  { destruct (Z.eqb_spec (a / 3600) 0) as [Za|Za],
             (Z.eqb_spec (b / 3600) 0) as [Zb|Zb].
    - lia.
    - symmetry in Eh. now apply app_eq_nil in Eh as [_ Eh].
    - now apply app_eq_nil in Eh as [_ Eh].
    - apply app_inj_tail in Eh as [Eh _]. now apply number_inj. }
  pose proof (Z.div_mod a 3600 ltac:(lia)) as Da.
  pose proof (Z.div_mod b 3600 ltac:(lia)) as Db.
  pose proof (Z.div_mod (a mod 3600) 60 ltac:(lia)) as Da'.
  pose proof (Z.div_mod (b mod 3600) 60 ltac:(lia)) as Db'.
  rewrite (Z.mod_mod_divide a 3600 60) in Da' by (now exists 60).
  rewrite (Z.mod_mod_divide b 3600 60) in Db' by (now exists 60).
  lia.
Qed.

Lemma mul64_representable a b :
  int64_min <= a * b <= int64_max -> mul64 a b = a * b.
Proof.
  unfold int64_min, int64_max, mul64, wrap64. intros H.
  rewrite Z.mod_small by lia. lia.
Qed.

(** [formatSizeText] shows bytes below 1024 exactly; from 1024 on it shows
    whole units and one decimal digit, cut and never rounded up: the value
    shown is at most the size and less than a tenth of a unit below it. *)
Theorem formatSizeText_truncates size :
  0 <= size -> size * 10 <= int64_max ->
  (size < 1024 -> formatSizeText size = number size ++ qsl_B) /\
  (1024 <= size < 1024 * 1024 ->
   exists q t,
     formatSizeText size = number q ++ [46] ++ [48 + t] ++ qsl_KB /\
     q = size / 1024 /\ 1 <= q <= 1023 /\ 0 <= t <= 9 /\
     (10 * q + t) * 1024 <= 10 * size < (10 * q + t + 1) * 1024) /\
  (1024 * 1024 <= size ->
   exists q t,
     formatSizeText size = number q ++ [46] ++ [48 + t] ++ qsl_MB /\
     q = size / (1024 * 1024) /\ 1 <= q /\ 0 <= t <= 9 /\
     (10 * q + t) * (1024 * 1024) <= 10 * size
       < (10 * q + t + 1) * (1024 * 1024)).
Proof.
  intros H0 Hmax. unfold formatSizeText.
  rewrite mul64_representable by (unfold int64_min, int64_max in *; lia).
  assert (forall unit, 0 < unit -> unit <= size ->
            let tenth := Z.quot (size * 10) unit in
            Z.quot tenth 10 = size / unit /\
            1 <= size / unit /\
            0 <= Z.rem tenth 10 <= 9 /\
            (10 * (size / unit) + Z.rem tenth 10) * unit <= 10 * size
              < (10 * (size / unit) + Z.rem tenth 10 + 1) * unit) as Tenth.
  { intros unit Hu Hle tenth. subst tenth.
    rewrite (Z.quot_div_nonneg (size * 10) unit) by lia.
    assert (0 <= size * 10 / unit) as Hq by (apply Z.div_pos; lia).
    rewrite Z.quot_div_nonneg, Z.rem_mod_nonneg by lia.
    assert (size * 10 / unit / 10 = size / unit) as Eq.
    { rewrite Z.div_div by lia. rewrite (Z.mul_comm unit 10).
      rewrite <- Z.div_div by lia. now rewrite Z.div_mul by lia. }
    pose proof (Z.div_mod (size * 10 / unit) 10 ltac:(lia)) as D1.
    pose proof (Z.mod_pos_bound (size * 10 / unit) 10 ltac:(lia)) as B1.
    pose proof (Z.div_mod (size * 10) unit ltac:(lia)) as D2.
    pose proof (Z.mod_pos_bound (size * 10) unit ltac:(lia)) as B2.
    rewrite Eq in *.
    assert (1 <= size / unit) by (apply Z.div_le_lower_bound; lia).
    repeat split; try lia; nia. }
  split; [|split].
  - intros Hlt.
    destruct (Z.geb_spec size (1024 * 1024)); [lia|].
    destruct (Z.geb_spec size 1024); [lia|]. reflexivity.
  - intros [Hge Hlt].
    destruct (Z.geb_spec size (1024 * 1024)); [lia|].
    destruct (Z.geb_spec size 1024); [|lia].
    destruct (Tenth 1024 ltac:(lia) Hge) as (Eq & Hq & Ht & Hb).
    exists (size / 1024), (Z.rem (Z.quot (size * 10) 1024) 10).
    rewrite Eq, (number_digit (Z.rem _ 10)) by exact Ht.
    repeat split; try lia.
  - intros Hge.
    destruct (Z.geb_spec size (1024 * 1024)); [|lia].
    destruct (Tenth (1024 * 1024) ltac:(lia) Hge) as (Eq & Hq & Ht & Hb).
    exists (size / (1024 * 1024)),
           (Z.rem (Z.quot (size * 10) (1024 * 1024)) 10).
    rewrite Eq, (number_digit (Z.rem _ 10)) by exact Ht.
    repeat split; lia.
Qed.

(** The colour index [documentColorIndex] computes is one of 0, 1, 2, 3, so
    the mask the palette functions apply leaves it as it is. *)
Theorem documentColorIndex_range toLower sticker_text empty_text document :
  let colorIndex :=
    fst (documentColorIndex toLower sticker_text empty_text document) in
  0 <= colorIndex <= 3 /\ Z.land colorIndex 3 = colorIndex.
Proof.
  intros colorIndex.
  assert (0 <= colorIndex <= 3) as R.
  { subst colorIndex. unfold documentColorIndex. cbn [fst].
    repeat match goal with
           | |- context [if ?b then _ else _] => destruct b
           end; try lia;
      match goal with
      | |- 0 <= Z.rem (unicode ?c) 4 <= 3 =>
          pose proof (Z.rem_bound_pos (unicode c) 4
                        (proj1 (Z.mod_pos_bound c 65536 ltac:(lia)))
                        ltac:(lia)); lia
      end. }
  split; [exact R|].
  change 3 with (Z.ones 2). rewrite Z.land_ones by lia.
  apply Z.mod_small. change (2 ^ 2) with 4. lia.
Qed.

(** For every index, negative ones included, each of the five palette
    functions reads inside its four-entry table, all five pick the same
    colour family, and an index four higher picks the same entry. *)
Theorem palette_in_bounds (colorIndex : Z) :
  exists color dark over selected corner,
    documentColor colorIndex = Some color /\
    documentDarkColor colorIndex = Some dark /\
    documentOverColor colorIndex = Some over /\
    documentSelectedColor colorIndex = Some selected /\
    documentCorner colorIndex = Some corner /\
    tint_of dark = tint_of color /\
    tint_of over = tint_of color /\
    tint_of selected = tint_of color /\
    tint_of corner = tint_of color /\
    documentColor (colorIndex + 4) = Some color.
Proof.
  unfold documentColor, documentDarkColor, documentOverColor,
    documentSelectedColor, documentCorner, table_at.
  change 3 with (Z.ones 2). rewrite !Z.land_ones by lia.
  change (2 ^ 2) with 4.
  replace ((colorIndex + 4) mod 4) with (colorIndex mod 4)
    by (rewrite <- (Z.mul_1_l 4) at 2; now rewrite Z.mod_add by lia).
  pose proof (Z.mod_pos_bound colorIndex 4 ltac:(lia)) as B.
  assert (exists n, (n < 4)%nat /\ colorIndex mod 4 = Z.of_nat n)
    as (n & L & ->) by (exists (Z.to_nat (colorIndex mod 4)); lia).
  rewrite Nat2Z.id.
  do 4 (destruct n as [|n];
        [do 5 eexists; repeat split; reflexivity|]). lia.
Qed.

Lemma lastIndexOf_from_absent s c i :
  ~ In c s -> lastIndexOf_from s c i = -1.
Proof.
  revert i. induction s as [|x s IH]; intros i Hn; cbn.
  - reflexivity.
  - rewrite IH by (intros H; apply Hn; now right). cbn.
    destruct (Z.eqb_spec x c) as [->|_]; [|reflexivity].
    exfalso. apply Hn. now left.
Qed.

Lemma lastIndexOf_from_last pre suf c i :
  0 <= i -> ~ In c suf ->
  lastIndexOf_from (pre ++ c :: suf) c i = i + Z.of_nat (length pre).
Proof.
  revert i. induction pre as [|x pre IH]; intros i Hi Hn; cbn [app length].
  - cbn. rewrite lastIndexOf_from_absent by assumption. cbn.
    rewrite Z.eqb_refl. lia.
  - cbn [lastIndexOf_from]. rewrite IH by (try lia; assumption).
    destruct (Z.geb_spec (i + 1 + Z.of_nat (length pre)) 0); lia.
Qed.

(** The extension [documentColorIndex] reports: empty for a null document;
    otherwise the lowered display name itself when it has no dot or ends in
    its last dot, and the non-empty part after the last dot, which contains
    no dot, in every other case. *)
Theorem documentColorIndex_ext toLower sticker_text empty_text :
  snd (documentColorIndex toLower sticker_text empty_text None) = [] /\
  forall d,
    let shown :=
      toLower (if QString_isEmpty (name d)
               then if sticker d then sticker_text else qsl_Unknown_File
               else name d) in
    let ext :=
      snd (documentColorIndex toLower sticker_text empty_text (Some d)) in
    (~ In 46 shown -> ext = shown) /\
    (forall pre, shown = pre ++ [46] -> ext = shown) /\
    (forall pre suf,
       shown = pre ++ 46 :: suf -> ~ In 46 suf -> suf <> [] ->
       ext = suf /\ ~ In 46 ext).
Proof.
  split; [reflexivity|]. intros d shown ext.
  subst ext. unfold documentColorIndex. cbn [snd]. fold shown.
  clearbody shown. unfold lastIndexOf, size, mid_from.
  split; [|split].
  - intros Hn. rewrite lastIndexOf_from_absent by assumption. reflexivity.
  - intros pre ->.
    rewrite lastIndexOf_from_last by (try lia; intros []).
    rewrite length_app. cbn [length]. unfold QString, QChar in *.
    match goal with
    | |- context [?a >? ?b] => destruct (Z.gtb_spec a b); [|lia]
    end.
    now rewrite orb_true_r.
  - intros pre suf -> Hn Hne.
    rewrite lastIndexOf_from_last by (try lia; assumption).
    rewrite length_app. destruct suf as [|u suf]; [contradiction|].
    cbn [length]. unfold QString, QChar in *.
    match goal with
    | |- context [?a <? ?b] => destruct (Z.ltb_spec a b); [lia|]
    end.
    match goal with
    | |- context [?a >? ?b] => destruct (Z.gtb_spec a b); [lia|]
    end.
    cbn [orb].
    replace (Z.to_nat (0 + Z.of_nat (length pre) + 1))
      with (length (pre ++ [46])) by (rewrite length_app; cbn; lia).
    change (pre ++ 46 :: u :: suf) with (pre ++ [46] ++ u :: suf).
    rewrite app_assoc, skipn_app, skipn_all, Nat.sub_diag.
    split; [reflexivity|exact Hn].
Qed.


(** Whatever geometry the photo tile had, [resizeGetHeight] leaves it square
    with side [min width maxw], returns that side, keeps [maxw], and a
    second call with the same width changes nothing. *)
Theorem resizeGetHeight_square l width :
  let result := LayoutOverviewPhoto_resizeGetHeight l width in
  fst result = Z.min width (_maxw l) /\
  _width (snd result) = fst result /\
  _height (snd result) = fst result /\
  _maxw (snd result) = _maxw l /\
  fst result <= _maxw l /\
  LayoutOverviewPhoto_resizeGetHeight (snd result) width = result.
Proof.
  unfold LayoutOverviewPhoto_resizeGetHeight.
  assert (Z.min (Z.min width (_maxw l)) (_maxw l) = Z.min width (_maxw l))
    as Emin by lia.
  assert (Z.min width (_maxw l) <= _maxw l) as Hle by lia.
  rewrite Emin.
  destruct (negb (Z.min width (_maxw l) =? _width l)
            || negb (Z.min width (_maxw l) =? _height l)) eqn:C;
    cbn [fst snd _width _height _maxw].
  - rewrite Emin, Z.eqb_refl. cbn. repeat split; lia.
  - rewrite C. apply orb_false_elim in C as [Cw Ch].
    apply negb_false_iff, Z.eqb_eq in Cw, Ch.
    repeat split; lia.
Qed.

(** ** The further methods and the formatting helpers on samples *)

Lemma local_index_calls_balanced_witness :
  let log :=
    lifecycle_calls sample_bit_of sample_IsClientMsgId sample_IsServerMsgId
      (history_of plain_user) (-5)
      (sample_mask f_out + sample_mask f_sending) 1500000000
      provisional_minus5 [CallSetRealId 9001; CallSetRealId 9002] in
  (length (filter is_unregister log) <= length (filter is_register log))%nat
  /\ (length (filter is_register log) <= 1)%nat
  /\ (length (filter is_register log) = 1%nat <->
       sample_IsClientMsgId (-5) = true).
Proof.
  exact (local_index_calls_balanced sample_bit_of sample_IsClientMsgId
           sample_IsServerMsgId eq_refl (history_of plain_user) (-5)
           (sample_mask f_out + sample_mask f_sending) 1500000000
           provisional_minus5 [CallSetRealId 9001; CallSetRealId 9002]).
Defined.

(** The calls of that life: registered by the constructor, unregistered by
    the confirmation; the second confirmation is a contract violation. *)
Example lifecycle_calls_confirmed :
  lifecycle_calls sample_bit_of sample_IsClientMsgId sample_IsServerMsgId
    (history_of plain_user) (-5)
    (sample_mask f_out + sample_mask f_sending) 1500000000
    provisional_minus5 [CallSetRealId 9001; CallSetRealId 9002]
  = [registerLocalMessage;
     method_call unregisterLocalMessage;
     method_call (notifyItemIdChange (-5));
     method_call requestItemRepaint].
Proof. reflexivity. Qed.

Lemma markMediaRead_settles_witness :
  exists m' log,
    run (markMediaRead sample_bit_of) unread_mention
    = Done (tt, {| this := m'; calls := log |}) /\
    (forall g now, hasUnreadMediaFlag sample_bit_of g now m' = false) /\
    isUnreadMention sample_bit_of m' = false /\
    mentionsMe sample_bit_of m' = mentionsMe sample_bit_of unread_mention /\
    exists log', run (markMediaRead sample_bit_of) m'
                 = Done (tt, {| this := m'; calls := log' |}).
Proof.
  exact (markMediaRead_settles sample_bit_of eq_refl unread_mention).
Defined.

Lemma hasUnreadMediaFlag_expires_witness :
  (hasUnreadMediaFlag sample_bit_of sample_config (1500000000 + 604800)
     channel_voice_post = false ->
   hasUnreadMediaFlag sample_bit_of sample_config (1500000000 + 604801)
     channel_voice_post = false) /\
  (isChannel (peer (_history channel_voice_post)) = false ->
   hasUnreadMediaFlag sample_bit_of sample_config (1500000000 + 604800)
     channel_voice_post
   = has sample_bit_of (_flags channel_voice_post) f_media_unread) /\
  (isChannel (peer (_history channel_voice_post)) = true ->
   ChannelsReadMediaPeriod sample_config
   <= 1500000000 + 604800 - _date channel_voice_post ->
   hasUnreadMediaFlag sample_bit_of sample_config (1500000000 + 604800)
     channel_voice_post = false).
Proof.
  apply (hasUnreadMediaFlag_expires sample_bit_of sample_config
           channel_voice_post (1500000000 + 604800) (1500000000 + 604801));
    unfold int32_min, int32_max; cbn; lia.
Defined.

(** The same post one second before the period ends still has unread
    media. *)
Example hasUnreadMediaFlag_within_period :
  hasUnreadMediaFlag sample_bit_of sample_config (1500000000 + 604799)
    channel_voice_post = true.
Proof. reflexivity. Qed.

Lemma markClientSideAsRead_reads_witness :
  let m' :=
    set_flags local_notice
      (flag_and_not sample_bit_of (_flags local_notice)
         f_clientside_unread) in
  run (markClientSideAsRead sample_bit_of) local_notice
  = Done (tt, {| this := m'; calls := [] |}) /\
  has sample_bit_of (_flags m') f_clientside_unread = false /\
  (forall f, f <> f_clientside_unread ->
     has sample_bit_of (_flags m') f
     = has sample_bit_of (_flags local_notice) f) /\
  (sample_IsServerMsgId (id local_notice) = false ->
   unread sample_bit_of sample_IsServerMsgId sample_isServerSideUnread m'
   = out sample_bit_of local_notice
     && unread sample_bit_of sample_IsServerMsgId sample_isServerSideUnread
          local_notice).
Proof.
  exact (markClientSideAsRead_reads sample_bit_of sample_IsServerMsgId
           sample_isServerSideUnread eq_refl local_notice).
Defined.

Example unread_before_and_after_markClientSideAsRead :
  unread sample_bit_of sample_IsServerMsgId sample_isServerSideUnread
    local_notice = true /\
  unread sample_bit_of sample_IsServerMsgId sample_isServerSideUnread
    (message_in plain_user (-9) 0 1500000000 [104; 105]) = false.
Proof. split; reflexivity. Qed.


Example Create_unsupported_flags :
  Create sample_bit_of
    (MTPmessage
       {| vid := 77; vflags := sample_mask f_post + sample_mask f_post_author;
          vreply_to_msg_id := Some 70; vvia_bot_id := None;
          vdate := 1500000000; vfrom_id := None;
          vmedia := Some MTPDmessageMediaUnsupported |})
  = makeMessage_unsupported 77 (sample_mask f_post + sample_mask f_legacy)
      70 0 1500000000 0.
Proof. reflexivity. Qed.

Example setGroupId_twice :
  setGroupId 5 (message_in plain_user 9001 0 1500000000 [])
  = Done (set_groupId (message_in plain_user 9001 0 1500000000 []) 5,
          [groups_registerMessage]) /\
  setGroupId 6 (set_groupId (message_in plain_user 9001 0 1500000000 []) 5)
  = ContractViolation.
Proof. split; reflexivity. Qed.


Lemma formatDurationText_injective_witness : 3725 = 3725.
Proof.
  apply (formatDurationText_injective 3725 3725); [lia|lia|reflexivity].
Defined.

Lemma formatSizeText_truncates_witness :
  (1536 < 1024 -> formatSizeText 1536 = number 1536 ++ qsl_B) /\
  (1024 <= 1536 < 1024 * 1024 ->
   exists q t,
     formatSizeText 1536 = number q ++ [46] ++ [48 + t] ++ qsl_KB /\
     q = 1536 / 1024 /\ 1 <= q <= 1023 /\ 0 <= t <= 9 /\
     (10 * q + t) * 1024 <= 10 * 1536 < (10 * q + t + 1) * 1024) /\
  (1024 * 1024 <= 1536 ->
   exists q t,
     formatSizeText 1536 = number q ++ [46] ++ [48 + t] ++ qsl_MB /\
     q = 1536 / (1024 * 1024) /\ 1 <= q /\ 0 <= t <= 9 /\
     (10 * q + t) * (1024 * 1024) <= 10 * 1536
       < (10 * q + t + 1) * (1024 * 1024)).
Proof.
  apply (formatSizeText_truncates 1536); [lia|].
  unfold int64_max. cbn. lia.
Defined.

Example formatDurationText_samples :
  formatDurationText 59 = [48; 48; 58; 53; 57] /\
  formatDurationText 3725 = [49; 58; 48; 50; 58; 48; 53] /\
  formatDurationText 36000 = [49; 48; 58; 48; 48; 58; 48; 48].
Proof. repeat split; reflexivity. Qed.

Example formatSizeText_samples :
  formatSizeText 1023 = [49; 48; 50; 51; 32; 66] /\
  formatSizeText 1536 = [49; 46; 53; 32; 75; 66] /\
  formatSizeText 1048575 = [49; 48; 50; 51; 46; 57; 32; 75; 66] /\
  formatSizeText 1048576 = [49; 46; 48; 32; 77; 66].
Proof. repeat split; reflexivity. Qed.

Example documentColorIndex_samples :
  documentColorIndex ascii_toLower [] []
    (Some {| name := [82; 46; 80; 68; 70]; mime := [];
             song := None; sticker := false |})
  = (2, [112; 100; 102]) /\
  documentColorIndex ascii_toLower [] []
    (Some {| name := [97; 46]; mime := []; song := None; sticker := false |})
  = (1, [97; 46]) /\
  documentColor (-1) = Some msgFileYellowColor.
Proof. repeat split; reflexivity. Qed.

Lemma flag_methods_keep_permissions_witness :
  let failed :=
    message_in broadcast_channel (-17) (sample_mask f_failed)
      1500000000 [104; 105] in
  canDelete sample_bit_of sample_IsServerMsgId failed
  = canDelete sample_bit_of sample_IsServerMsgId provisional_minus17 /\
  (forall g now,
     canDeleteForEveryone sample_bit_of g failed now
     = canDeleteForEveryone sample_bit_of g provisional_minus17 now) /\
  canPin failed = canPin provisional_minus17 /\
  canStopPoll sample_bit_of failed
  = canStopPoll sample_bit_of provisional_minus17 /\
  needCheck sample_bit_of failed
  = needCheck sample_bit_of provisional_minus17.
Proof.
  exact (flag_methods_keep_permissions sample_bit_of sample_IsServerMsgId
           eq_refl provisional_minus17 (sendFailed sample_bit_of)
           (or_introl eq_refl)
           {| this := message_in broadcast_channel (-17)
                        (sample_mask f_failed) 1500000000 [104; 105];
              calls := [peerUpdatedDelayed ChannelLocalMessages] |}
           eq_refl).
Defined.

Lemma mul32_representable (a b : Z) :
  int32_min <= a * b <= int32_max -> mul32 a b = a * b.
Proof.
  unfold int32_min, int32_max, mul32, wrap32. intros H.
  rewrite Z.mod_small by lia. lia.
Qed.

(** The thumbnail of a link tile is at least one pixel each way and never
    larger than the source (raised to one pixel); a source larger than
    [dlgPhotoSize] both ways is fitted so that its smaller side is exactly
    [dlgPhotoSize]; a source no wider than [dlgPhotoSize] is left as it is,
    however tall. *)
Theorem LayoutOverviewLink_pix_fits (dlgPhotoSize tw th : Z) :
  0 < dlgPhotoSize -> 0 <= tw -> 0 <= th ->
  tw * dlgPhotoSize <= int32_max -> th * dlgPhotoSize <= int32_max ->
  let pix := LayoutOverviewLink_pix dlgPhotoSize tw th in
  1 <= fst pix <= Z.max tw 1 /\
  1 <= snd pix <= Z.max th 1 /\
  (dlgPhotoSize < tw -> dlgPhotoSize < th ->
   Z.min (fst pix) (snd pix) = dlgPhotoSize) /\
  (tw <= dlgPhotoSize -> pix = (Z.max tw 1, Z.max th 1)).
Proof.
  intros Hs Hw Hh Mw Mh pix. subst pix. unfold LayoutOverviewLink_pix.
  rewrite !mul32_representable by (unfold int32_min, int32_max in *; nia).
  destruct (Z.gtb_spec tw dlgPhotoSize) as [Wide|Narrow];
    [|cbn [fst snd]; repeat split; lia].
  destruct (Z.gtb_spec th tw) as [Tall|Flat]; cbn [fst snd].
  - rewrite Z.quot_div_nonneg by lia.
    assert (dlgPhotoSize <= th * dlgPhotoSize / tw) as Lo
      by (apply Z.div_le_lower_bound; nia).
    assert (th * dlgPhotoSize / tw <= th) as Hi
      by (apply Z.div_le_upper_bound; nia).
    repeat split; lia.
  - destruct (Z.gtb_spec th dlgPhotoSize) as [High|Low]; cbn [fst snd];
      [|repeat split; lia].
    rewrite Z.quot_div_nonneg by lia.
    assert (dlgPhotoSize <= tw * dlgPhotoSize / th) as Lo
      by (apply Z.div_le_lower_bound; nia).
    assert (tw * dlgPhotoSize / th <= tw) as Hi
      by (apply Z.div_le_upper_bound; nia).
    repeat split; lia.
Qed.

Lemma LayoutOverviewLink_pix_fits_witness :
  let pix := LayoutOverviewLink_pix 48 640 480 in
  1 <= fst pix <= Z.max 640 1 /\
  1 <= snd pix <= Z.max 480 1 /\
  (48 < 640 -> 48 < 480 -> Z.min (fst pix) (snd pix) = 48) /\
  (640 <= 48 -> pix = (Z.max 640 1, Z.max 480 1)).
Proof.
  apply (LayoutOverviewLink_pix_fits 48 640 480);
    unfold int32_max; cbn; lia.
Defined.

Example LayoutOverviewLink_pix_samples :
  LayoutOverviewLink_pix 48 640 480 = (64, 48) /\
  LayoutOverviewLink_pix 48 480 640 = (48, 64) /\
  LayoutOverviewLink_pix 48 40 400 = (40, 400) /\
  LayoutOverviewLink_pix 48 0 0 = (1, 1).
Proof. repeat split; reflexivity. Qed.
